(** * create_new_webmap.py: popup synthesis and layer resolution

    A shallow embedding of [src/create_new_webmap.py] and the properties of
    its popup synthesis, layer resolution and name splitting.

    Python dictionaries are finite maps from strings to values, Python
    exceptions are an error monad, and the calls made to the portal are
    recorded in a log. *)

From Stdlib Require Import ZArith NArith String Ascii.
From stdpp Require Import base option list gmap strings.

Set Warnings "-register-all".
Set Default Proof Using "Type".

(** ** Python values and exceptions *)

Module Py.

(** The JSON-like values held by the dictionaries the program reads and
    mutates.  Equality of dictionaries is extensional, like Python's [==]. *)
Inductive value : Type :=
| VNone
| VBool (b : bool)
| VInt (n : Z)
| VStr (s : string)
| VList (l : list value)
| VDict (d : gmap string value).

(** Exceptions, with the message or the name they carry. *)
Inductive exn : Type :=
| TypeError (msg : string)
| KeyError (msg : string)
| IndexError (msg : string)
| AttributeError (msg : string)
| UnboundLocalError (var : string).

Inductive result (A : Type) : Type :=
| Ok (a : A)
| Raise (e : exn).
Global Arguments Ok {A} a.
Global Arguments Raise {A} e.

Global Instance result_ret : MRet result := fun _ a => Ok a.
Global Instance result_bind : MBind result := fun _ _ f m =>
  match m with
  | Ok a => f a
  | Raise e => Raise e
  end.
Global Instance result_fmap : FMap result := fun _ _ f m =>
  match m with
  | Ok a => Ok (f a)
  | Raise e => Raise e
  end.

(** [bool(v)]: the truth value Python gives to [v] in a condition. *)
Definition truthy (v : value) : bool :=
  match v with
  | VNone => false
  | VBool b => b
  | VInt n => negb (n =? 0)%Z
  | VStr s => negb (String.eqb s "")
  | VList l => match l with [] => false | _ => true end
  | VDict d => negb (bool_decide (d = ∅))
  end.

(** [v[k]] for a string key [k]. *)
Definition getitem (v : value) (k : string) : result value :=
  match v with
  | VDict d =>
      match d !! k with
      | Some x => Ok x
      | None => Raise (KeyError k)
      end
  | VList _ => Raise (TypeError "list indices must be integers or slices, not str")
  | VStr _ => Raise (TypeError "string indices must be integers")
  | _ => Raise (TypeError "object is not subscriptable")
  end.

(** [v[k] = x] for a string key [k]; the updated object is returned. *)
Definition setitem (v : value) (k : string) (x : value) : result value :=
  match v with
  | VDict d => Ok (VDict (<[k := x]> d))
  | VList _ => Raise (TypeError "list indices must be integers or slices, not str")
  | _ => Raise (TypeError "object does not support item assignment")
  end.

(** [l[i]] for a list. *)
Definition index {A} (l : list A) (i : nat) : result A :=
  match l !! i with
  | Some x => Ok x
  | None => Raise (IndexError "list index out of range")
  end.

(** The one-character strings of a string, as iteration yields them. *)
Fixpoint chars (s : string) : list value :=
  match s with
  | "" => []
  | String c r => VStr (String c "") :: chars r
  end.

(** [for x in v]: the elements iteration yields.  A dictionary yields its
    keys; every use below subscripts the element with a string, which fails
    on a key whatever the order. *)
Definition iter (v : value) : result (list value) :=
  match v with
  | VList l => Ok l
  | VStr s => Ok (chars s)
  | VDict d => Ok (VStr <$> (map_to_list d).*1)
  | _ => Raise (TypeError "object is not iterable")
  end.

(** A value used where the program iterates the characters of a name.
    [None], numbers and booleans are not iterable; names held in lists or
    dictionaries are outside the model and rejected alike. *)
Definition as_str (v : value) : result string :=
  match v with
  | VStr s => Ok s
  | _ => Raise (TypeError "object is not iterable")
  end.

(** [v == s] for a string [s]. *)
Definition eq_str (v : value) (s : string) : bool :=
  match v with
  | VStr t => String.eqb t s
  | _ => false
  end.

(** *** Characters and [str] methods

    A character is a code point below 256.  [isupper] and [isspace] are
    Python's on that range: the upper-case letters are A-Z and the Latin-1
    capitals, the white space is TAB..CR, FS..US, SPACE, NEL and NBSP. *)
Definition isupper (c : ascii) : bool :=
  let n := N_of_ascii c in
  ((65 <=? n) && (n <=? 90) || (192 <=? n) && (n <=? 214)
   || (216 <=? n) && (n <=? 222))%N.

Definition isspace (c : ascii) : bool :=
  let n := N_of_ascii c in
  ((9 <=? n) && (n <=? 13) || (28 <=? n) && (n <=? 32)
   || (n =? 133) || (n =? 160))%N.

(** [any(letter.isupper() for letter in s)] *)
Fixpoint any_isupper (s : string) : bool :=
  match s with
  | "" => false
  | String c r => isupper c || any_isupper r
  end.

Fixpoint lstrip (s : string) : string :=
  match s with
  | "" => ""
  | String c r => if isspace c then lstrip r else s
  end.

Fixpoint rstrip (s : string) : string :=
  match s with
  | "" => ""
  | String c r =>
      match rstrip r with
      | "" => if isspace c then "" else String c ""
      | r' => String c r'
      end
  end.

(** [s.strip()] *)
Definition strip (s : string) : string := rstrip (lstrip s).

Fixpoint startswith (s p : string) : bool :=
  match p, s with
  | "", _ => true
  | String _ _, "" => false
  | String a p', String b s' => Ascii.eqb a b && startswith s' p'
  end.

(** [needle in hay] for two strings. *)
Fixpoint contains (hay needle : string) : bool :=
  startswith hay needle
  || match hay with
     | "" => false
     | String _ r => contains r needle
     end.

(** [s in l] for a list of strings. *)
Definition mem (s : string) (l : list string) : bool :=
  existsb (String.eqb s) l.

End Py.
Import Py.

(** ** The program *)


(** *** The portal and its objects

    The [arcgis] package is outside the repository.  Its objects are records
    of what the program reads from them; an access whose outcome depends on
    the package ([layer['popupInfo']], [layer.properties.fields]) is held as
    its outcome. *)

Record schema_field : Type := {
  fld_name : string;
  fld_type : string
}.

(** A layer of a collection, or of the data payload of its item. *)
Record layer : Type := {
  url : string;
  properties_name : string;
  properties_fields : result (list schema_field);
  getitem_popupInfo : result value
}.

(** A portal item.  [get_data] is [None] for an empty payload and otherwise
    the list held under ['layers']. *)
Record item : Type := {
  id : string;
  title : string;
  layers : list layer;
  get_data : option (list layer)
}.

Record GIS : Type := {
  users_me_username : string;
  content_search : string → string → list item;
  content_get : string → option item
}.

(** The calls that reach the portal, in the order they are made. *)
Inductive portal_call : Type :=
| Search (query item_type : string)
| Get (item_id : string)
| GetData (item_id : string)
| Update (item_id : string) (item_properties : gmap string value)
| Protect (item_id : string) (enable : bool)
| Share (item_id : string) (level : string)
| Save (item_properties : gmap string value) (operationalLayers : list value).

(** A computation that calls the portal: the calls made, and the outcome.
    Printed output is not recorded; the arguments of a [print] are evaluated
    where they can raise. *)
Record io (A : Type) : Type := IO {
  calls : list portal_call;
  outcome : result A
}.
Arguments IO {A} calls outcome.
Arguments calls {A} _.
Arguments outcome {A} _.

#[global] Instance io_ret : MRet io := fun _ a => IO [] (Ok a).
#[global] Instance io_bind : MBind io := fun _ _ f m =>
  match outcome m with
  | Ok a => IO (calls m ++ calls (f a)) (outcome (f a))
  | Raise e => IO (calls m) (Raise e)
  end.

Definition call (c : portal_call) : io unit := IO [c] (Ok ()).
Definition lift {A} (r : result A) : io A := IO [] r.
Definition raise {A} (e : exn) : io A := IO [] (Raise e).

(** [for x in l: acc = body(acc, x)], stopping at the first exception. *)
Fixpoint for_each {A B} (body : B → A → result B) (l : list A) (acc : B) : result B :=
  match l with
  | [] => Ok acc
  | x :: r => acc' ← body acc x; for_each body r acc'
  end.

Fixpoint for_each_io {A B} (body : B → A → io B) (l : list A) (acc : B) : io B :=
  match l with
  | [] => mret acc
  | x :: r => acc' ← body acc x; for_each_io body r acc'
  end.

(** [for x in l: body(x)], where [body] mutates [x] in place or checks it:
    the elements as the loop leaves them. *)
Fixpoint for_each_update {A B} (body : A → result B) (l : list A) : result (list B) :=
  match l with
  | [] => Ok []
  | x :: r => x' ← body x; r' ← for_each_update body r; Ok (x' :: r')
  end.

(** [needle in v] for a string [needle]. *)
Definition py_in (needle : string) (v : value) : result bool :=
  match v with
  | VStr s => Ok (contains s needle)
  | VList l => Ok (existsb (fun x => eq_str x needle) l)
  | VDict d => Ok (bool_decide (is_Some (d !! needle)))
  | _ => Raise (TypeError "argument is not iterable")
  end.

(** *** split_uppercase *)

Fixpoint split_uppercase_loop (word final_word : string) : string :=
  match word with
  | "" => final_word
  | String i rest =>
      split_uppercase_loop rest
        (final_word +:+ (if isupper i then " " +:+ String i "" else String i ""))
  end.

Definition split_uppercase (word : string) : string :=
  let final_word := split_uppercase_loop word "" in
  strip final_word.

(** What the splitter is meant to produce, in the specification's words: a
    separator before each upper-case letter ([spaced]), and none before the
    first character ([separate_internal]). *)
Fixpoint spaced (w : string) : string :=
  match w with
  | "" => ""
  | String c r =>
      if isupper c then String " " (String c (spaced r)) else String c (spaced r)
  end.

Definition separate_internal (w : string) : string :=
  match w with
  | "" => ""
  | String c r => String c (spaced r)
  end.

Fixpoint count_upper (w : string) : nat :=
  match w with
  | "" => 0
  | String c r => (if isupper c then 1 else 0) + count_upper r
  end.

(** The spaces the splitter leaves in its result: one for each upper-case
    letter after the first character that is kept. *)
Definition inserted_spaces (w : string) : nat :=
  match strip w with
  | "" => 0
  | String _ r => count_upper r
  end.

(** *** NO_POPUP_FIELDS *)

Definition NO_POPUP_FIELDS : list string :=
  ["OBJECTID"; "ORIG_FID"; "ORIG_FID_1"; "Shape.STArea()";
   "Shape.STLength()"; "Shape__Area"; "Shape__lenght"; "Shape"].

(** *** customize_popup_description *)

Definition font_prefix : string :=
  "<font color='#dc143c' face='Arial' size='2'>".

(** ['<b> %s :</b>  {%s}  <br /><br />' % (label, name)] *)
Definition field_popup (label name : string) : string :=
  "<b> " +:+ label +:+ " :</b>  {" +:+ name +:+ "}  <br /><br />".

Definition customize_popup_field
    (layer_popup_description : string) (field : value) : result string :=
  fieldName ← getitem field "fieldName" ≫= as_str;
  if any_isupper fieldName && negb (mem fieldName NO_POPUP_FIELDS) then
    let field_name := split_uppercase fieldName in
    Ok (layer_popup_description +:+ field_popup field_name fieldName)
  else
    label ← getitem field "label" ≫= as_str;
    if any_isupper label && negb (mem label NO_POPUP_FIELDS) then
      let label' := split_uppercase label in
      Ok (layer_popup_description +:+ field_popup label' label)
    else Ok layer_popup_description.

Definition customize_popup_description
    (operational_layer : value) (map_service_type : string) : result string :=
  let layer_popup_description := font_prefix in
  layer_popup_description ←
    (if String.eqb map_service_type "Feature Layer" then
       operational_layer_popup ← getitem operational_layer "popupInfo";
       fieldInfos ← getitem operational_layer_popup "fieldInfos" ≫= iter;
       for_each customize_popup_field fieldInfos layer_popup_description
     else Ok layer_popup_description);
  _ ← getitem operational_layer "title";
  Ok layer_popup_description.

(** *** get_feature_layer_index *)

Definition get_feature_layer_index
    (feature_layer_collection : item) (layer_name : string) : result nat :=
  layer_index ←
    for_each
      (fun (layer_index : option nat) '(index, url) =>
         l ← Py.index (layers feature_layer_collection) index;
         if contains (properties_name l) layer_name
         then Ok (Some index) else Ok layer_index)
      (zip (seq 0 (length (layers feature_layer_collection)))
           (layers feature_layer_collection))
      None;
  match layer_index with
  | Some layer_index => Ok layer_index
  | None => Raise (UnboundLocalError "layer_index")
  end.

(** *** get_webmap_operational_layers

    A web map is the list under [definition['operationalLayers']].  The
    function returns one of its dictionaries by reference: the position is
    returned with it, so that a mutation can be written back. *)

Definition title_contains (layer : value) (layer_name : string) : result bool :=
  title ← getitem layer "title"; py_in layer_name title.

Definition get_webmap_operational_layers
    (web_map : list value) (layer_name : string) : result (nat * value) :=
  operational_layer ←
    for_each
      (fun (operational_layer : option (nat * value)) '(i, layer) =>
         b ← title_contains layer layer_name;
         if b : bool then Ok (Some (i, layer)) else Ok operational_layer)
      (zip (seq 0 (length web_map)) web_map)
      None;
  match operational_layer with
  | Some operational_layer => Ok operational_layer
  | None => Raise (UnboundLocalError "operational_layer")
  end.
(** *** feature_layer_popup: the numeric formats *)

Definition format_double : value :=
  VDict (<["places" := VInt 2]> (<["digitSeparator" := VBool false]> ∅)).

Definition format_integer : value :=
  VDict (<["places" := VInt 0]> (<["digitSeparator" := VBool false]> ∅)).

(** The body of the inner loop, for one field of the target layer. *)
Definition format_field_step (field : value) (fld : schema_field) : result value :=
  fieldName ← getitem field "fieldName";
  if eq_str fieldName (fld_name fld)
     && String.eqb (fld_type fld) "esriFieldTypeDouble" then
    setitem field "format" format_double
  else if eq_str fieldName (fld_name fld)
          && String.eqb (fld_type fld) "esriFieldTypeInteger" then
    setitem field "format" format_integer
  else Ok field.

(** The body of the outer loop: [target_layer.properties.fields] is read
    anew for each entry. *)
Definition format_field (target_layer : layer) (field : value) : result value :=
  fields ← properties_fields target_layer;
  for_each format_field_step fields field.

(** The loop over [operational_layer_popup['fieldInfos']].  The entries of a
    list are mutated in place; the elements another iterable yields are
    strings, which the loop can only leave as they are. *)
Definition format_fieldInfos (target_layer : layer) (fieldInfos : value) : result value :=
  match fieldInfos with
  | VList l => VList <$> for_each_update (format_field target_layer) l
  | _ =>
      l ← iter fieldInfos;
      _ ← for_each_update (format_field target_layer) l;
      Ok fieldInfos
  end.

(** The part of [feature_layer_popup] that works on the operational layer
    and the target layer once both are found.  [operational_layer_popup] is
    the dictionary held under [operational_layer['popupInfo']]: what is
    assigned through it is written into the operational layer. *)
Definition popup_synthesis
    (map_service_type : string) (layer_name : string)
    (operational_layer : value) (target_layer : layer) : result value :=
  popupInfo ← getitem operational_layer "popupInfo";
  operational_layer ←
    (if truthy popupInfo then Ok operational_layer
     else
       popupInfo ← getitem_popupInfo target_layer;
       setitem operational_layer "popupInfo" popupInfo);
  operational_layer_popup ← getitem operational_layer "popupInfo";
  operational_layer_popup ← setitem operational_layer_popup "title" (VStr layer_name);
  operational_layer ← setitem operational_layer "popupInfo" operational_layer_popup;
  layer_popup_description ←
    customize_popup_description operational_layer map_service_type;
  operational_layer_popup ←
    setitem operational_layer_popup "description" (VStr layer_popup_description);
  fieldInfos ← getitem operational_layer_popup "fieldInfos";
  fieldInfos ← format_fieldInfos target_layer fieldInfos;
  operational_layer_popup ← setitem operational_layer_popup "fieldInfos" fieldInfos;
  operational_layer ← setitem operational_layer "popupInfo" operational_layer_popup;
  _ ← getitem operational_layer "title";
  Ok operational_layer.

(** *** get_properties_from_project *)

Definition get_properties_from_project
    (project_name content_type : string) (project_additional_info : list value)
  : gmap string value :=
  let title_not_used : gset string := {["title"]} in
  let item_title := project_name +:+ "_" +:+ content_type in
  let access_information := "Data Center" in
  let license_info := "All rights reserved." in
  let item_tags := VStr project_name :: project_additional_info in
  let item_snippet :=
    "This is a " +:+ content_type +:+ " of " +:+ project_name +:+ " project." in
  let font_properties :=
    "<font color='#8b0000' size='4'><font style='font-family: inherit;'>" in
  let item_description :=
    "This is a " +:+ content_type +:+ " of " +:+ project_name +:+ " project." in
  let properties : gmap string value :=
    <["title" := VStr item_title]>
    (<["snippet" := VStr item_snippet]>
    (<["description" := VStr (font_properties +:+ item_description)]>
    (<["tags" := VList item_tags]>
    (<["accessInformation" := VStr access_information]>
    (<["licenseInfo" := VStr (font_properties +:+ license_info)]> ∅))))) in
  if negb (String.eqb content_type "WebMap") then
    filter (fun kv => kv.1 ∉ title_not_used) properties
  else properties.

Section portal.

(** The connection the module opens when it is loaded, and what
    [WebMap.add_layer] makes of a web map and a layer. *)
Variable PORTAL_CONNECTION : GIS.
Variable WebMap_add_layer : list value → layer → list value.

(** *** get_portal_item *)

Definition get_portal_item
    (portal_connection : GIS) (item_name item_type : string) : io item :=
  let query :=
    "title:" +:+ item_name +:+ " AND owner:"
    +:+ users_me_username portal_connection in
  _ ← call (Search query item_type);
  let search_item := content_search portal_connection query item_type in
  match search_item with
  | [] => raise (KeyError ("unable to find " +:+ item_name))
  | item :: _ =>
      let item_id := id item in
      _ ← call (Get item_id);
      match content_get portal_connection item_id with
      | None =>
          raise (KeyError ("unable to find an item with id of '" +:+ item_id +:+ "'"))
      | Some portal_item => mret portal_item
      end
  end.

(** *** get_feature_layers_collection *)

Definition get_feature_layers_collection (project_name : string) : io item :=
  get_portal_item PORTAL_CONNECTION (project_name +:+ "_Map") "Feature Layer".

(** *** protect_share_item *)

Definition protect_share_item (portal_item : item) : io unit :=
  _ ← call (Protect (id portal_item) true);
  call (Share (id portal_item) "org").

(** *** get_feature_layer_from_feature_service *)

Definition get_feature_layer_from_feature_service
    (map_service_name map_service_type layer_name : string) : io layer :=
  feature_layers ← get_portal_item PORTAL_CONNECTION map_service_name map_service_type;
  _ ← call (GetData (id feature_layers));
  let feature_layer_data := get_data feature_layers in
  layer_index ← lift (get_feature_layer_index feature_layers layer_name);
  match feature_layer_data with
  | None => lift (Py.index (layers feature_layers) layer_index)
  | Some data_layers => lift (Py.index data_layers layer_index)
  end.

(** *** feature_layer_popup

    The web map is returned with the operational layer that was found
    replaced by its mutated state. *)

Definition feature_layer_popup
    (map_service_name map_service_type : string)
    (web_map : list value) (layer_name : string) : io (list value) :=
  '(i, operational_layer) ← lift (get_webmap_operational_layers web_map layer_name);
  target_layer ←
    get_feature_layer_from_feature_service map_service_name map_service_type layer_name;
  operational_layer ←
    lift (popup_synthesis map_service_type layer_name operational_layer target_layer);
  mret (<[i := operational_layer]> web_map).

(** *** create_popups *)

Definition create_popups
    (web_map : list value) (project_name : string) (layer_names : list string)
  : io (list value) :=
  match layer_names with
  | [] => mret web_map
  | _ =>
      for_each_io
        (fun web_map layer_name =>
           feature_layer_popup (project_name +:+ "_Map") "Feature Layer"
             web_map layer_name)
        layer_names web_map
  end.

(** *** create_new_webmap

    The arguments arrive untyped.  The loop that checks the layer names
    yields them as the strings they are found to be. *)

Definition check_layer_name (layer_name : value) : result string :=
  match layer_name with
  | VStr s => Ok s
  | _ => Raise (TypeError "expected layer name to be type of str")
  end.

Definition create_new_webmap
    (project_name layer_names : value) (args : list value) : io unit :=
  match project_name with
  | VStr project_name =>
      match layer_names with
      | VList layer_names =>
          layer_names ← lift (for_each_update check_layer_name layer_names);
          (* get feature layers collection and update its properties *)
          feature_layers ← get_feature_layers_collection project_name;
          let feature_layers_properties :=
            get_properties_from_project project_name "Feature Layer" args in
          _ ← call (Update (id feature_layers) feature_layers_properties);
          _ ← protect_share_item feature_layers;
          (* create a new web map and add the feature layers to it *)
          let new_web_map : list value := [] in
          let new_web_map :=
            foldl WebMap_add_layer new_web_map (layers feature_layers) in
          let web_map_properties :=
            get_properties_from_project project_name "WebMap" args in
          (* create popups for map layers, then save the web map *)
          new_web_map ← create_popups new_web_map project_name layer_names;
          call (Save web_map_properties new_web_map)
      | _ => raise (TypeError "expected layer names to be type of list")
      end
  | _ => raise (TypeError "expected project name to be type of str")
  end.

End portal.

(** *** Scanning to the end

    What a loop that overwrites its result at every match leaves behind:
    [mk k x] for the last [x] of [l] that satisfies [p], where [k] counts
    positions from the one given, and [acc] when no element does. *)
Fixpoint scan_last {A B} (p : A → bool) (mk : nat → A → B)
    (k : nat) (l : list A) (acc : option B) : option B :=
  match l with
  | [] => acc
  | x :: r => scan_last p mk (S k) r (if p x then Some (mk k x) else acc)
  end.

(** Whether the title of an operational layer is found to contain
    [layer_name]. *)
Definition title_matches (layer : value) (layer_name : string) : bool :=
  match title_contains layer layer_name with
  | Ok true => true
  | _ => false
  end.

(** An operational layer whose title can be searched for [layer_name]. *)
Definition searchable (layer_name : string) (layer : value) : Prop :=
  ∃ b, title_contains layer layer_name = Ok b.

(** *** The numeric formats, in the specification's words

    A schema field decides the format of an entry when its name is the
    entry's [fieldName] and its type is double or integer; the format is
    then the one of the field's type. *)
Definition decides (fieldName : value) (fld : schema_field) : bool :=
  eq_str fieldName (fld_name fld)
  && (String.eqb (fld_type fld) "esriFieldTypeDouble"
      || String.eqb (fld_type fld) "esriFieldTypeInteger").

Definition format_of (fld : schema_field) : value :=
  if String.eqb (fld_type fld) "esriFieldTypeDouble"
  then format_double else format_integer.

(** The format the schema fields leave on an entry: that of the last field
    that decides, if any. *)
Definition schema_format (fields : list schema_field) (fieldName : value)
  : option value :=
  scan_last (decides fieldName) (fun _ fld => format_of fld) 0 fields None.

Definition apply_format (format : option value) (field : gmap string value)
  : gmap string value :=
  match format with
  | Some f => <["format" := f]> field
  | None => field
  end.

(** An entry before and after the formatting loop. *)
Inductive formatted_entry (fields : list schema_field) : value → value → Prop :=
| formatted_by_last d n k fld :
    d !! "fieldName" = Some n →
    fields !! k = Some fld → decides n fld = true →
    (∀ j fld', k < j → fields !! j = Some fld' → decides n fld' = false) →
    formatted_entry fields (VDict d) (VDict (<["format" := format_of fld]> d))
| formatted_untouched e :
    (∀ d n fld, e = VDict d → d !! "fieldName" = Some n → fld ∈ fields →
                decides n fld = false) →
    formatted_entry fields e e.

(** Two entries that differ at most in a numeric format. *)
Inductive format_changed : value → value → Prop :=
| format_same e : format_changed e e
| format_set d f :
    f = format_double ∨ f = format_integer →
    format_changed (VDict d) (VDict (<["format" := f]> d)).

(** Two values of [fieldInfos] that differ at most in the numeric formats
    of their entries. *)
Inductive formats_changed : value → value → Prop :=
| formats_same v : formats_changed v v
| formats_entries l l' :
    Forall2 format_changed l l' → formats_changed (VList l) (VList l').

(** The popup the synthesis works on: the operational layer's own when it is
    not empty, the target layer's otherwise. *)
Definition resolved_popupInfo (operational_layer : value) (target_layer : layer)
  : result value :=
  popupInfo ← getitem operational_layer "popupInfo";
  if truthy popupInfo then Ok popupInfo else getitem_popupInfo target_layer.

(** *** Sample data *)

Definition sample_layer (name : string) : layer :=
  {| url := "https://portal/rest/" +:+ name;
     properties_name := name;
     properties_fields := Ok [];
     getitem_popupInfo := Ok (VDict ∅) |}.

Definition sample_collection (names : list string) : item :=
  {| id := "0a1b"; title := "Town_Map";
     layers := sample_layer <$> names; get_data := None |}.

Definition titled (t : string) : value := VDict (<["title" := VStr t]> ∅).

(** *** The lines of a popup description

    In the specification's words: a name qualifies when it has an upper-case
    letter and is not excluded; an entry contributes the line of its
    [fieldName] when that qualifies, else the line of its [label] when that
    qualifies, else nothing. *)
Definition qualifies (name : string) : bool :=
  any_isupper name && negb (mem name NO_POPUP_FIELDS).

Inductive entry_line : value → string → Prop :=
| line_fieldName d n :
    d !! "fieldName" = Some (VStr n) → qualifies n = true →
    entry_line (VDict d) (field_popup (split_uppercase n) n)
| line_label d n l :
    d !! "fieldName" = Some (VStr n) → qualifies n = false →
    d !! "label" = Some (VStr l) → qualifies l = true →
    entry_line (VDict d) (field_popup (split_uppercase l) l)
| line_nothing d n l :
    d !! "fieldName" = Some (VStr n) → qualifies n = false →
    d !! "label" = Some (VStr l) → qualifies l = false →
    entry_line (VDict d) "".

Fixpoint concat_lines (lines : list string) : string :=
  match lines with
  | [] => ""
  | line :: rest => line +:+ concat_lines rest
  end.

Definition field_info (fieldName : string) : gmap string value :=
  <["fieldName" := VStr fieldName]> ∅.

Definition labelled_field_info (fieldName label : string) : gmap string value :=
  <["label" := VStr label]> (field_info fieldName).

(** An operational layer with the given title and [fieldInfos]. *)
Definition sample_operational_layer (title : string) (fieldInfos : list value)
  : gmap string value :=
  <["title" := VStr title]>
    (<["popupInfo" := VDict (<["fieldInfos" := VList fieldInfos]> ∅)]> ∅).

Definition sample_portal (portal_item : item) : GIS :=
  {| users_me_username := "admin";
     content_search := fun _ _ => [portal_item];
     content_get := fun _ => Some portal_item |}.

Definition parcels_fields : list schema_field :=
  [ {| fld_name := "Area"; fld_type := "esriFieldTypeDouble" |};
    {| fld_name := "Lots"; fld_type := "esriFieldTypeInteger" |};
    {| fld_name := "OwnerName"; fld_type := "esriFieldTypeString" |} ].

Definition parcels_popupInfo : gmap string value :=
  <["title" := VStr "Parcels (default)"]>
    (<["showAttachments" := VBool true]>
       (<["fieldInfos" :=
            VList [VDict (field_info "Area"); VDict (field_info "Lots");
                   VDict (field_info "OwnerName")]]> ∅)).

(** A hosted service: the operational layer has its popup, the layer of the
    collection is the target and is not asked for one. *)
Definition hosted_item : item :=
  {| id := "0a1b"; title := "Town_Map";
     layers :=
       [ {| url := "https://portal/rest/Parcels";
            properties_name := "Parcels";
            properties_fields := Ok parcels_fields;
            getitem_popupInfo := Raise (TypeError "object is not subscriptable") |} ];
     get_data := None |}.

Definition hosted_operational_layer : gmap string value :=
  <["title" := VStr "Parcels"]>
    (<["opacity" := VInt 1]> (<["popupInfo" := VDict parcels_popupInfo]> ∅)).

Definition hosted_web_map : list value := [VDict hosted_operational_layer].

(** A registered service: the operational layer has an empty popup, the
    target is the layer of the data payload and carries one. *)
Definition registered_layer : layer :=
  {| url := "https://portal/rest/Parcels";
     properties_name := "Parcels";
     properties_fields := Ok parcels_fields;
     getitem_popupInfo := Ok (VDict parcels_popupInfo) |}.

Definition registered_item : item :=
  {| id := "0a1b"; title := "Town_Map";
     layers := [sample_layer "Parcels"];
     get_data := Some [registered_layer] |}.

Definition registered_operational_layer : gmap string value :=
  <["title" := VStr "Parcels"]>
    (<["opacity" := VInt 1]> (<["popupInfo" := VDict ∅]> ∅)).

Definition registered_web_map : list value := [VDict registered_operational_layer].

(** A schema with two fields of one name, a double and then an integer. *)
Definition duplicate_item : item :=
  {| id := "0a1b"; title := "Town_Map";
     layers :=
       [ {| url := "https://portal/rest/Parcels";
            properties_name := "Parcels";
            properties_fields :=
              Ok [ {| fld_name := "Area"; fld_type := "esriFieldTypeDouble" |};
                   {| fld_name := "Area"; fld_type := "esriFieldTypeInteger" |} ];
            getitem_popupInfo := Raise (TypeError "object is not subscriptable") |} ];
     get_data := None |}.

Definition duplicate_web_map : list value :=
  [VDict (sample_operational_layer "Parcels" [VDict (field_info "Area")])].

(** The web map a completed run leaves, and the target layer a fetch
    returns. *)
Definition completed (run : io (list value)) : list value :=
  match outcome run with
  | Ok web_map => web_map
  | Raise _ => []
  end.

Definition fetched (run : io layer) : layer :=
  match outcome run with
  | Ok target_layer => target_layer
  | Raise _ => sample_layer ""
  end.

(** *** Notions for the properties of the whole program *)

(** The inverse of the separation: a space that stands before an upper-case
    letter is removed. *)
Fixpoint unspace (s : string) : string :=
  match s with
  | "" => ""
  | String c r =>
      match r with
      | "" => String c ""
      | String d _ =>
          if Ascii.eqb c " " && isupper d then unspace r
          else String c (unspace r)
      end
  end.

(** The calls that read from the portal and change nothing. *)
Definition read_only (c : portal_call) : bool :=
  match c with
  | Search _ _ | Get _ | GetData _ => true
  | _ => false
  end.

Definition is_save (c : portal_call) : bool :=
  match c with
  | Save _ _ => true
  | _ => false
  end.

(** The titles of the operational layers of a web map, as a lookup of
    ['title'] finds them. *)
Definition titles (web_map : list value) : list (result value) :=
  (fun layer => getitem layer "title") <$> web_map.

(** An entry of [fieldInfos] that the formatting loop can read. *)
Definition named_entry (field : value) : Prop :=
  ∃ d n, field = VDict d ∧ d !! "fieldName" = Some n.

(** An entry of [fieldInfos] that gives no line to a description: neither
    its [fieldName] nor its [label] qualifies. *)
Definition silent_entry (field : value) : Prop :=
  ∃ d n l, field = VDict d
           ∧ d !! "fieldName" = Some (VStr n) ∧ qualifies n = false
           ∧ d !! "label" = Some (VStr l) ∧ qualifies l = false.

(** The query [get_portal_item] sends for an item name. *)
Definition item_query (P : GIS) (item_name : string) : string :=
  "title:" +:+ item_name +:+ " AND owner:" +:+ users_me_username P.

(** ** Properties *)

(** Inversion of a bind that is known to succeed: [m ≫= f = Ok _] leaves
    [m = Ok x] under the name given. *)
Tactic Notation "bind_inv" hyp(H) "as" ident(x) ident(E) :=
  match type of H with
  | mbind _ ?m = Ok _ =>
      destruct m as [x|] eqn:E; [cbn [mbind result_bind] in H | discriminate H]
  end.

Section str_facts.

Lemma isspace_not_upper c : isspace c = true → isupper c = false.
Proof. destruct c as [[] [] [] [] [] [] [] []]; vm_compute; congruence. Qed.

Lemma space_isspace : isspace " " = true.
Proof. reflexivity. Qed.

Lemma append_nil_l s : "" +:+ s = s.
Proof. reflexivity. Qed.

Lemma append_cons c s t : String c s +:+ t = String c (s +:+ t).
Proof. reflexivity. Qed.

Lemma append_nil_r s : s +:+ "" = s.
Proof. induction s as [|c s IH]; [done|]. by rewrite append_cons, IH. Qed.

Lemma append_assoc s t u : (s +:+ t) +:+ u = s +:+ (t +:+ u).
Proof. induction s as [|c s IH]; [done|]. by rewrite !append_cons, IH. Qed.

Lemma length_append s t :
  String.length (s +:+ t) = String.length s + String.length t.
Proof. induction s as [|c s IH]; [done|]. rewrite append_cons. cbn. by rewrite IH. Qed.

Lemma split_uppercase_loop_spaced w acc :
  split_uppercase_loop w acc = acc +:+ spaced w.
Proof.
  revert acc. induction w as [|c w IH]; intros acc; cbn.
  - by rewrite append_nil_r.
  - rewrite IH. destruct (isupper c);
      by rewrite append_assoc, ?append_cons, ?append_nil_l.
Qed.

Lemma spaced_empty w : spaced w = "" → w = "".
Proof. destruct w as [|c w]; [done|]. cbn. by destruct (isupper c). Qed.

Lemma rstrip_cons_nonspace c s :
  isspace c = false → rstrip (String c s) = String c (rstrip s).
Proof. intros Hc. cbn. rewrite Hc. by destruct (rstrip s). Qed.

Lemma rstrip_cons c s :
  rstrip (String c s) =
  match rstrip s with
  | "" => if isspace c then "" else String c ""
  | r' => String c r'
  end.
Proof. reflexivity. Qed.

Lemma rstrip_spaced w : rstrip (spaced w) = spaced (rstrip w).
Proof.
  induction w as [|c w IH]; [done|].
  destruct (isupper c) eqn:Hu.
  - assert (isspace c = false) as Hs.
    { destruct (isspace c) eqn:Hs; [|done].
      apply isspace_not_upper in Hs. congruence. }
    rewrite (rstrip_cons_nonspace c w Hs). cbn [spaced]. rewrite Hu.
    rewrite (rstrip_cons " "), (rstrip_cons_nonspace c _ Hs), IH. done.
  - cbn [spaced]. rewrite Hu, !rstrip_cons, IH.
    destruct (rstrip w) as [|d r].
    + cbn [spaced]. destruct (isspace c); [done|]. cbn. by rewrite Hu.
    + cbn [spaced]. rewrite Hu. by destruct (isupper d).
Qed.

Lemma lstrip_spaced w : lstrip (spaced w) = separate_internal (lstrip w).
Proof.
  induction w as [|c w IH]; [done|].
  cbn [spaced lstrip]. destruct (isspace c) eqn:Hs.
  - rewrite (isspace_not_upper c Hs). cbn [lstrip]. by rewrite Hs.
  - destruct (isupper c); cbn; by rewrite Hs.
Qed.

Lemma rstrip_separate_internal w :
  lstrip w = w → rstrip (separate_internal w) = separate_internal (rstrip w).
Proof.
  destruct w as [|c w]; [done|]. cbn [lstrip separate_internal].
  destruct (isspace c) eqn:Hs.
  - intros Heq. exfalso.
    assert (String.length (lstrip w) ≤ String.length w)%nat as Hle.
    { clear. induction w as [|d w IH]; cbn; [lia|].
      destruct (isspace d); cbn; lia. }
    rewrite Heq in Hle. cbn in Hle. lia.
  - intros _. rewrite !rstrip_cons_nonspace by done.
    cbn. by rewrite rstrip_spaced.
Qed.

Lemma lstrip_idemp w : lstrip (lstrip w) = lstrip w.
Proof.
  induction w as [|c w IH]; [done|]. cbn.
  destruct (isspace c) eqn:Hs; [done|]. cbn. by rewrite Hs.
Qed.

(** The splitter works on the trimmed word: it trims, then separates. *)
Lemma split_uppercase_strip w :
  split_uppercase w = separate_internal (strip w).
Proof.
  unfold split_uppercase, strip.
  rewrite split_uppercase_loop_spaced, append_nil_l.
  rewrite lstrip_spaced, rstrip_separate_internal; [done|].
  apply lstrip_idemp.
Qed.

Lemma length_spaced w :
  String.length (spaced w) = String.length w + count_upper w.
Proof.
  induction w as [|c w IH]; [done|]. cbn.
  destruct (isupper c); cbn; rewrite IH; lia.
Qed.

Lemma spaced_no_upper w : any_isupper w = false → spaced w = w.
Proof.
  induction w as [|c w IH]; [done|]. cbn.
  intros [Hc Hw]%orb_false_iff. by rewrite Hc, IH.
Qed.

Lemma separate_internal_no_upper w :
  any_isupper w = false → separate_internal w = w.
Proof.
  destruct w as [|c w]; [done|]. cbn.
  intros [_ Hw]%orb_false_iff. by rewrite spaced_no_upper.
Qed.

Lemma lstrip_no_upper w : any_isupper w = false → any_isupper (lstrip w) = false.
Proof.
  induction w as [|c w IH]; [done|]. cbn.
  intros [Hc Hw]%orb_false_iff. destruct (isspace c); [auto|].
  cbn. by rewrite Hc, Hw.
Qed.

Lemma rstrip_no_upper w : any_isupper w = false → any_isupper (rstrip w) = false.
Proof.
  induction w as [|c w IH]; [done|]. cbn [any_isupper].
  intros [Hc Hw]%orb_false_iff. rewrite rstrip_cons.
  specialize (IH Hw). destruct (rstrip w) as [|d r].
  - destruct (isspace c); [done|]. cbn. by rewrite Hc.
  - change (isupper c || any_isupper (String d r) = false).
    by rewrite Hc, IH.
Qed.

Lemma rstrip_idemp w : rstrip (rstrip w) = rstrip w.
Proof.
  induction w as [|c w IH]; [done|]. rewrite (rstrip_cons c w).
  destruct (rstrip w) as [|d r] eqn:Hr.
  - destruct (isspace c) eqn:Hs; [done|]. cbn. by rewrite Hs.
  - rewrite rstrip_cons, IH. done.
Qed.

Lemma lstrip_fixed w :
  match w with "" => True | String c _ => isspace c = false end → lstrip w = w.
Proof. destruct w as [|c w]; [done|]. cbn. by intros ->. Qed.

Lemma lstrip_head w :
  match lstrip w with "" => True | String c _ => isspace c = false end.
Proof.
  induction w as [|c w IH]; [done|]. cbn.
  by destruct (isspace c) eqn:Hs.
Qed.

Lemma strip_idemp w : strip (strip w) = strip w.
Proof.
  unfold strip. rewrite (lstrip_fixed (rstrip (lstrip w))).
  - apply rstrip_idemp.
  - pose proof (lstrip_head w) as Hh. destruct (lstrip w) as [|c r]; [done|].
    by rewrite rstrip_cons_nonspace.
Qed.

Lemma strip_no_upper w : any_isupper w = false → any_isupper (strip w) = false.
Proof. intros Hw. by apply rstrip_no_upper, lstrip_no_upper. Qed.

End str_facts.

(** *** NameSplitter *)

(** C6, as the program has it.  [split_uppercase] trims its input and puts
    one space before every upper-case letter after the first character: each
    internal upper-case letter gets its own separator, so that
    [split_uppercase "ParcelID"] is ["Parcel I D"]. *)
Theorem split_uppercase_separates (w : string) :
  split_uppercase w = separate_internal (strip w)
  ∧ split_uppercase "ParcelID" = "Parcel I D".
Proof. split; [apply split_uppercase_strip | reflexivity]. Qed.

(** C6 as stated fails: the result for ["ParcelID"] is not ["Parcel ID"]. *)
Lemma split_uppercase_ParcelID_not_Parcel_ID :
  split_uppercase "ParcelID" ≠ "Parcel ID".
Proof. discriminate. Qed.

(** C7, as the program has it.  The result has as many characters as the
    trimmed input plus one for each inserted space; for an input without
    white space at its ends that is the length of the input plus the
    inserted spaces.  On an input without upper-case letters a second
    application changes nothing. *)
Theorem split_uppercase_length_idempotent (w : string) :
  String.length (split_uppercase w) = String.length (strip w) + inserted_spaces w
  ∧ (strip w = w →
     String.length (split_uppercase w) = String.length w + inserted_spaces w)
  ∧ (any_isupper w = false →
     split_uppercase (split_uppercase w) = split_uppercase w).
Proof.
  assert (String.length (split_uppercase w)
          = String.length (strip w) + inserted_spaces w) as Hlen.
  { rewrite split_uppercase_strip. unfold inserted_spaces.
    destruct (strip w) as [|c r]; [done|]. cbn. rewrite length_spaced. lia. }
  split; [exact Hlen|]. split.
  - intros Hw. rewrite Hlen. by rewrite Hw.
  - intros Hw. rewrite !split_uppercase_strip.
    rewrite (separate_internal_no_upper (strip w)) by by apply strip_no_upper.
    rewrite strip_idemp.
    apply separate_internal_no_upper. by apply strip_no_upper.
Qed.

Lemma split_uppercase_length_idempotent_witness :
  String.length (split_uppercase "LandUseCode") = 11 + 2
  ∧ split_uppercase (split_uppercase "parcel id") = split_uppercase "parcel id".
Proof.
  destruct (split_uppercase_length_idempotent "LandUseCode") as (_ & Hlen & _).
  destruct (split_uppercase_length_idempotent "parcel id") as (_ & _ & Hid).
  split; [apply Hlen | apply Hid]; reflexivity.
Defined.

(** C7 as stated fails on an input that ends in white space: the result is
    shorter than the input, whatever number of spaces is discounted. *)
Lemma split_uppercase_length_trailing_space :
  split_uppercase "id " = "id"
  ∧ ∀ k : nat,
      String.length (split_uppercase "id ") ≠ String.length "id " + k.
Proof. split; [reflexivity|]. intros k Hk. vm_compute in Hk. lia. Qed.

(** *** Layer resolution *)

Section scan.
Context {A B : Type} (p : A → bool) (mk : nat → A → B).

Lemma scan_last_snoc k l x acc :
  scan_last p mk k (l ++ [x]) acc =
  if p x then Some (mk (k + length l) x) else scan_last p mk k l acc.
Proof.
  revert k acc. induction l as [|y l IH]; intros k acc; cbn.
  - by rewrite Nat.add_0_r.
  - rewrite IH. by replace (S k + length l) with (k + S (length l)) by lia.
Qed.

Lemma scan_last_None k l acc :
  (∀ x, x ∈ l → p x = false) → scan_last p mk k l acc = acc.
Proof.
  revert k acc. induction l as [|y l IH]; intros k acc Hl; [done|]. cbn.
  rewrite (Hl y) by left. apply IH. intros x Hx. apply Hl. by right.
Qed.

Lemma scan_last_Some l acc :
  (∃ x, x ∈ l ∧ p x = true) →
  ∃ i x, scan_last p mk 0 l acc = Some (mk i x)
         ∧ l !! i = Some x ∧ p x = true
         ∧ ∀ j y, i < j → l !! j = Some y → p y = false.
Proof.
  induction l as [|y l IH] using rev_ind; intros (x & Hx & Hp).
  { by apply elem_of_nil in Hx. }
  rewrite scan_last_snoc. destruct (p y) eqn:Hy.
  - exists (length l), y. split; [done|]. split; [by rewrite list_lookup_middle|].
    split; [done|]. intros j z Hj Hz.
    apply lookup_lt_Some in Hz. rewrite length_app in Hz. cbn in Hz. lia.
  - apply elem_of_app in Hx as [Hx|Hx%list_elem_of_singleton]; [|congruence].
    destruct IH as (i & z & Hs & Hi & Hz & Hlast); [by eauto|].
    exists i, z. split; [done|]. split; [by apply lookup_app_l_Some|].
    split; [done|]. intros j u Hj Hu.
    destruct (decide (j < length l)) as [Hlt|Hge].
    + rewrite lookup_app_l in Hu by done. by eapply Hlast.
    + rewrite lookup_app_r in Hu by lia.
      destruct (j - length l) as [|n]; cbn in Hu; [congruence|].
      destruct n; discriminate.
Qed.

End scan.

Lemma index_lookup {A} (l : list A) i x : l !! i = Some x → Py.index l i = Ok x.
Proof. unfold Py.index. by intros ->. Qed.

Lemma get_feature_layer_index_loop fc layer_name pre l acc :
  layers fc = pre ++ l →
  for_each
    (fun (layer_index : option nat) '(index, url) =>
       l ← Py.index (layers fc) index;
       if contains (properties_name l) layer_name
       then Ok (Some index) else Ok layer_index)
    (zip (seq (length pre) (length l)) l) acc
  = Ok (scan_last (fun l => contains (properties_name l) layer_name)
          (fun i _ => i) (length pre) l acc).
Proof.
  revert pre acc. induction l as [|x l IH]; intros pre acc Hfc; [done|].
  cbn. rewrite (index_lookup (layers fc) (length pre) x)
    by (by rewrite Hfc, list_lookup_middle).
  cbn.
  specialize (IH (pre ++ [x])). rewrite length_app, Nat.add_1_r in IH.
  destruct (contains (properties_name x) layer_name);
    cbn; apply IH; by rewrite <- app_assoc.
Qed.

Lemma get_feature_layer_index_scan fc layer_name :
  get_feature_layer_index fc layer_name =
  match scan_last (fun l => contains (properties_name l) layer_name)
          (fun i _ => i) 0 (layers fc) None with
  | Some i => Ok i
  | None => Raise (UnboundLocalError "layer_index")
  end.
Proof.
  pose proof (get_feature_layer_index_loop fc layer_name [] (layers fc) None
                eq_refl) as Hloop.
  change (length (@nil layer)) with 0 in Hloop.
  unfold get_feature_layer_index. by rewrite Hloop.
Qed.

Lemma get_webmap_operational_layers_loop layer_name k l acc :
  Forall (searchable layer_name) l →
  for_each
    (fun (operational_layer : option (nat * value)) '(i, layer) =>
       b ← title_contains layer layer_name;
       if b : bool then Ok (Some (i, layer)) else Ok operational_layer)
    (zip (seq k (length l)) l) acc
  = Ok (scan_last
          (fun layer => title_matches layer layer_name) pair k l acc).
Proof.
  revert k acc. induction l as [|x l IH]; intros k acc Hl; [done|].
  apply Forall_cons in Hl as [[b Hb] Hl]. cbn. unfold title_matches.
  rewrite Hb. cbn. destruct b; cbn; by rewrite IH.
Qed.

Lemma get_webmap_operational_layers_scan web_map layer_name :
  Forall (searchable layer_name) web_map →
  get_webmap_operational_layers web_map layer_name =
  match scan_last (fun layer => title_matches layer layer_name) pair 0 web_map None with
  | Some operational_layer => Ok operational_layer
  | None => Raise (UnboundLocalError "operational_layer")
  end.
Proof.
  intros Hwf. unfold get_webmap_operational_layers.
  by rewrite get_webmap_operational_layers_loop.
Qed.

(** [contains] is the substring test. *)
Lemma startswith_spec s p : startswith s p = true ↔ ∃ b, s = p +:+ b.
Proof.
  revert s. induction p as [|a p IH]; intros s.
  - split; [|by destruct s]. intros _. by exists s.
  - destruct s as [|c s]; cbn.
    + split; [done|]. by intros [b ?].
    + rewrite andb_true_iff, IH, Ascii.eqb_eq. split.
      * intros [-> [b ->]]. by exists b.
      * intros [b Hb]. rewrite append_cons in Hb. injection Hb as -> ->. eauto.
Qed.

Lemma contains_spec hay needle :
  contains hay needle = true ↔ ∃ a b, hay = a +:+ needle +:+ b.
Proof.
  induction hay as [|c hay IH].
  - cbn [contains]. rewrite orb_false_r, startswith_spec. split.
    + intros [b Hb]. by exists "", b.
    + intros ([|? a] & b & Hab); [by exists b|discriminate].
  - cbn [contains]. rewrite orb_true_iff, IH, startswith_spec. split.
    + intros [[b Hb]|(a & b & Hab)]; [by exists "", b|].
      exists (String c a), b. by rewrite append_cons, Hab.
    + intros ([|d a] & b & Hab); [left; by exists b|right].
      rewrite append_cons in Hab. injection Hab as -> ->. eauto.
Qed.

(** C1.  When some layer of the collection has a name that contains the
    layer name, [get_feature_layer_index] returns the index of the last such
    layer: the layer at that index matches and no later layer does; for the
    names Roads, RoadsDetail, Parcels and the target Roads it returns 1.
    Likewise, in a web map whose operational layers have titles that can be
    searched, when some title contains the layer name
    [get_webmap_operational_layers] returns the last operational layer whose
    title does. *)
Theorem last_match_wins (fc : item) (web_map : list value) (layer_name : string) :
  ((∃ l, l ∈ layers fc ∧ contains (properties_name l) layer_name = true) →
   ∃ i l, get_feature_layer_index fc layer_name = Ok i
          ∧ layers fc !! i = Some l
          ∧ contains (properties_name l) layer_name = true
          ∧ ∀ j l', i < j → layers fc !! j = Some l' →
                    contains (properties_name l') layer_name = false)
  ∧ (properties_name <$> layers fc = ["Roads"; "RoadsDetail"; "Parcels"] →
     get_feature_layer_index fc "Roads" = Ok 1)
  ∧ (Forall (searchable layer_name) web_map →
     (∃ l, l ∈ web_map ∧ title_contains l layer_name = Ok true) →
     ∃ i l, get_webmap_operational_layers web_map layer_name = Ok (i, l)
            ∧ web_map !! i = Some l
            ∧ title_contains l layer_name = Ok true
            ∧ ∀ j l', i < j → web_map !! j = Some l' →
                      title_contains l' layer_name = Ok false).
Proof.
  split; [|split].
  - intros Hex. rewrite get_feature_layer_index_scan.
    destruct (scan_last_Some
                (fun l => contains (properties_name l) layer_name)
                (fun i _ => i) (layers fc) None Hex)
      as (i & l & -> & Hi & Hl & Hlast).
    by exists i, l.
  - intros Hnames. rewrite get_feature_layer_index_scan.
    destruct (layers fc) as [|l0 [|l1 [|l2 [|]]]]; try discriminate.
    injection Hnames as H0 H1 H2. cbn. by rewrite H0, H1, H2.
  - intros Hwf Hex. rewrite get_webmap_operational_layers_scan by done.
    destruct (scan_last_Some
                (fun layer => title_matches layer layer_name) pair web_map None)
      as (i & l & -> & Hi & Hl & Hlast).
    { destruct Hex as (l & Hl & Hm). exists l. split; [done|].
      unfold title_matches. by rewrite Hm. }
    exists i, l. split; [done|]. split; [done|]. split.
    + unfold title_matches in Hl.
      by destruct (title_contains l layer_name) as [[]|].
    + intros j l' Hj Hl'. specialize (Hlast j l' Hj Hl').
      assert (searchable layer_name l') as [b Hb].
      { eapply Forall_forall; [exact Hwf|]. by eapply list_elem_of_lookup_2. }
      unfold title_matches in Hlast. rewrite Hb in Hlast |- *. by destruct b.
Qed.

Lemma last_match_wins_witness :
  (∃ i l, get_feature_layer_index
            (sample_collection ["Roads"; "RoadsDetail"; "Parcels"]) "Roads" = Ok i
          ∧ layers (sample_collection ["Roads"; "RoadsDetail"; "Parcels"]) !! i = Some l
          ∧ contains (properties_name l) "Roads" = true
          ∧ ∀ j l', i < j →
              layers (sample_collection ["Roads"; "RoadsDetail"; "Parcels"]) !! j = Some l' →
              contains (properties_name l') "Roads" = false)
  ∧ get_feature_layer_index
      (sample_collection ["Roads"; "RoadsDetail"; "Parcels"]) "Roads" = Ok 1
  ∧ (∃ i l, get_webmap_operational_layers
              [titled "Roads"; titled "RoadsDetail"; titled "Parcels"] "Roads" = Ok (i, l)
            ∧ [titled "Roads"; titled "RoadsDetail"; titled "Parcels"] !! i = Some l
            ∧ title_contains l "Roads" = Ok true
            ∧ ∀ j l', i < j →
                [titled "Roads"; titled "RoadsDetail"; titled "Parcels"] !! j = Some l' →
                title_contains l' "Roads" = Ok false).
Proof.
  destruct (last_match_wins
              (sample_collection ["Roads"; "RoadsDetail"; "Parcels"])
              [titled "Roads"; titled "RoadsDetail"; titled "Parcels"] "Roads")
    as (Hindex & Hroads & Hmap).
  split; [|split].
  - apply Hindex. exists (sample_layer "Roads"). split; [by left | reflexivity].
  - apply Hroads. reflexivity.
  - apply Hmap.
    + repeat constructor; eexists; reflexivity.
    + exists (titled "Roads"). split; [by left | reflexivity].
Defined.

(** C8.  When no layer of the collection has a name that contains the layer
    name, [get_feature_layer_index] returns no index: it fails, and what it
    raises is the fault of reading the local [layer_index], which no
    iteration has assigned. *)
Theorem get_feature_layer_index_no_match (fc : item) (layer_name : string) :
  (∀ l, l ∈ layers fc → contains (properties_name l) layer_name = false) →
  get_feature_layer_index fc layer_name = Raise (UnboundLocalError "layer_index").
Proof.
  intros Hno. rewrite get_feature_layer_index_scan.
  by rewrite scan_last_None.
Qed.

Lemma get_feature_layer_index_no_match_witness :
  get_feature_layer_index (sample_collection ["Parcels"]) "Roads"
  = Raise (UnboundLocalError "layer_index").
Proof.
  apply get_feature_layer_index_no_match.
  intros l [->|[]%elem_of_nil]%elem_of_cons. reflexivity.
Defined.

(** *** The popup description *)

Lemma getitem_dict d k x : d !! k = Some x → getitem (VDict d) k = Ok x.
Proof. unfold getitem. by intros ->. Qed.

Lemma getitem_Ok v k x :
  getitem v k = Ok x → ∃ d, v = VDict d ∧ d !! k = Some x.
Proof.
  destruct v as [| | | | |d]; try discriminate. cbn.
  destruct (d !! k) eqn:Hk; [|discriminate]. intros [= ->]. eauto.
Qed.

Lemma customize_popup_field_line acc field line :
  entry_line field line →
  customize_popup_field acc field = Ok (acc +:+ line).
Proof.
  unfold customize_popup_field.
  destruct 1 as [d n Hn Hq|d n l Hn Hq Hl Hql|d n l Hn Hq Hl Hql];
    unfold qualifies in *;
    rewrite (getitem_dict _ _ _ Hn); cbn [mbind result_bind as_str];
    rewrite Hq; [done|..];
    rewrite (getitem_dict _ _ _ Hl); cbn [mbind result_bind as_str];
    rewrite Hql; [done|].
  by rewrite append_nil_r.
Qed.

Lemma customize_popup_fields_lines fieldInfos lines acc :
  Forall2 entry_line fieldInfos lines →
  for_each customize_popup_field fieldInfos acc = Ok (acc +:+ concat_lines lines).
Proof.
  intros Hlines. revert acc.
  induction Hlines as [|field line fieldInfos lines Hline _ IH]; intros acc; cbn.
  - by rewrite append_nil_r.
  - rewrite (customize_popup_field_line _ _ _ Hline). cbn.
    by rewrite IH, append_assoc.
Qed.

(** C5, as the program has it.  For an operational layer with a title, each
    entry of [fieldInfos] contributes one line or nothing, in the order of
    [fieldInfos]: the line of its [fieldName] when that qualifies, else that
    of its [label] when that qualifies.  An entry whose [fieldName] does not
    qualify is looked up for its [label]: with the entry for OBJECTID
    labelled OBJECTID, the description for OBJECTID and LandUseCode is the
    prefix followed by the single line of LandUseCode, labelled
    "Land Use Code". *)
Theorem customize_popup_description_lines
    (operational_layer popupInfo : gmap string value) (title : value)
    (fieldInfos : list value) :
  operational_layer !! "title" = Some title →
  operational_layer !! "popupInfo" = Some (VDict popupInfo) →
  popupInfo !! "fieldInfos" = Some (VList fieldInfos) →
  (∀ lines, Forall2 entry_line fieldInfos lines →
     customize_popup_description (VDict operational_layer) "Feature Layer"
     = Ok (font_prefix +:+ concat_lines lines))
  ∧ (fieldInfos = [VDict (labelled_field_info "OBJECTID" "OBJECTID");
                   VDict (field_info "LandUseCode")] →
     customize_popup_description (VDict operational_layer) "Feature Layer"
     = Ok (font_prefix +:+ field_popup "Land Use Code" "LandUseCode")).
Proof.
  intros Htitle Hpopup Hfields.
  assert (∀ lines, Forall2 entry_line fieldInfos lines →
     customize_popup_description (VDict operational_layer) "Feature Layer"
     = Ok (font_prefix +:+ concat_lines lines)) as Hgeneral.
  { intros lines Hlines. unfold customize_popup_description. cbn [String.eqb].
    rewrite (getitem_dict _ _ _ Hpopup). cbn.
    rewrite Hfields. cbn.
    rewrite (customize_popup_fields_lines _ _ _ Hlines). cbn.
    by rewrite Htitle. }
  split; [exact Hgeneral|]. intros ->.
  rewrite (Hgeneral [""; field_popup "Land Use Code" "LandUseCode"]); [done|].
  constructor; [|constructor; [|constructor]].
  - by apply (line_nothing _ "OBJECTID" "OBJECTID").
  - by apply (line_fieldName _ "LandUseCode").
Qed.

Lemma customize_popup_description_lines_witness :
  customize_popup_description
    (VDict (sample_operational_layer "Parcels"
              [VDict (labelled_field_info "OBJECTID" "OBJECTID");
               VDict (field_info "LandUseCode")]))
    "Feature Layer"
  = Ok (font_prefix +:+ field_popup "Land Use Code" "LandUseCode").
Proof.
  eapply (customize_popup_description_lines
            (sample_operational_layer "Parcels"
               [VDict (labelled_field_info "OBJECTID" "OBJECTID");
                VDict (field_info "LandUseCode")])).
  - reflexivity.
  - reflexivity.
  - reflexivity.
  - reflexivity.
Defined.

(** C5 as stated fails: an entry that holds nothing but the excluded
    [fieldName] is looked up for a [label] it does not have. *)
Lemma customize_popup_description_missing_label :
  customize_popup_description
    (VDict (sample_operational_layer "Parcels"
              [VDict (field_info "OBJECTID"); VDict (field_info "LandUseCode")]))
    "Feature Layer"
  = Raise (KeyError "label").
Proof. reflexivity. Qed.

(** *** The numeric formats *)

Lemma format_field_step_dict d n fld :
  d !! "fieldName" = Some n →
  format_field_step (VDict d) fld
  = Ok (VDict (if decides n fld then <["format" := format_of fld]> d else d)).
Proof.
  intros Hn. unfold format_field_step, decides, format_of.
  rewrite (getitem_dict _ _ _ Hn). cbn [mbind result_bind].
  destruct (eq_str n (fld_name fld)); [|done]. cbn [andb].
  destruct (String.eqb (fld_type fld) "esriFieldTypeDouble"); [done|].
  by destruct (String.eqb (fld_type fld) "esriFieldTypeInteger").
Qed.

Lemma apply_format_fieldName format d :
  apply_format format d !! "fieldName" = d !! "fieldName".
Proof. destruct format; [|done]. by apply lookup_insert_ne. Qed.

Lemma format_field_steps d n fields k acc :
  d !! "fieldName" = Some n →
  for_each format_field_step fields (VDict (apply_format acc d))
  = Ok (VDict (apply_format
                 (scan_last (decides n) (fun _ fld => format_of fld) k fields acc) d)).
Proof.
  intros Hn. revert k acc. induction fields as [|fld fields IH]; intros k acc; [done|].
  cbn [for_each scan_last]. rewrite (format_field_step_dict _ n).
  2:{ by rewrite apply_format_fieldName. }
  cbn [mbind result_bind]. rewrite <- (IH (S k)). do 2 f_equal.
  destruct (decides n fld); [|done]. destruct acc; [|done].
  cbn. by rewrite insert_insert_eq.
Qed.

Lemma format_field_steps_dict d n fields :
  d !! "fieldName" = Some n →
  for_each format_field_step fields (VDict d)
  = Ok (VDict (apply_format (schema_format fields n) d)).
Proof. intros Hn. apply (format_field_steps d n fields 0 None Hn). Qed.

Lemma format_field_steps_raise field fields e :
  getitem field "fieldName" = Raise e →
  for_each format_field_step fields field
  = match fields with [] => Ok field | _ => Raise e end.
Proof.
  intros He. destruct fields as [|fld fields]; [done|].
  cbn. unfold format_field_step. by rewrite He.
Qed.

Lemma getitem_cases v k :
  (∃ d x, v = VDict d ∧ d !! k = Some x) ∨ (∃ e, getitem v k = Raise e).
Proof.
  destruct v as [| | | | |d]; try (right; by eexists).
  cbn. destruct (d !! k) eqn:Hk; [left|right]; eauto.
Qed.

(** What the loop over the schema fields makes of one entry. *)
Lemma format_field_Ok tl fields field field' :
  properties_fields tl = Ok fields →
  format_field tl field = Ok field' →
  (∃ d n, field = VDict d ∧ d !! "fieldName" = Some n
          ∧ field' = VDict (apply_format (schema_format fields n) d))
  ∨ (fields = [] ∧ field' = field).
Proof.
  intros Hfields. unfold format_field. rewrite Hfields. cbn [mbind result_bind].
  destruct (getitem_cases field "fieldName") as [(d & n & -> & Hn)|[e He]].
  - rewrite (format_field_steps_dict d n fields Hn). intros [= <-].
    left. by exists d, n.
  - rewrite (format_field_steps_raise _ _ _ He).
    destruct fields; [|discriminate]. intros [= <-]. by right.
Qed.

Lemma format_field_idemp tl field :
  format_field tl field ≫= format_field tl = format_field tl field.
Proof.
  destruct (properties_fields tl) as [fields|e] eqn:Hfields.
  2:{ unfold format_field. by rewrite Hfields. }
  destruct (format_field tl field) as [field'|e] eqn:Hfield; [|done].
  cbn [mbind result_bind].
  destruct (format_field_Ok _ _ _ _ Hfields Hfield)
    as [(d & n & -> & Hn & ->)|[-> ->]]; [|done].
  unfold format_field. rewrite Hfields. cbn [mbind result_bind].
  rewrite (format_field_steps_dict _ n fields).
  2:{ by rewrite apply_format_fieldName. }
  do 2 f_equal.
  destruct (schema_format fields n); [|done]. cbn. by rewrite insert_insert_eq.
Qed.

Lemma for_each_update_idemp {A} (body : A → result A) l :
  (∀ x, body x ≫= body = body x) →
  for_each_update body l ≫= for_each_update body = for_each_update body l.
Proof.
  intros Hbody. induction l as [|x l IH]; [done|].
  cbn [for_each_update]. specialize (Hbody x).
  destruct (body x) as [x'|e]; [|done]. cbn [mbind result_bind] in *.
  destruct (for_each_update body l) as [l'|e]; [|done].
  cbn [mbind result_bind for_each_update] in *. by rewrite Hbody, IH.
Qed.

(** C9.  The loop that rewrites the formats is idempotent: run on its own
    result, with the same target layer, it fails when the first run fails
    and otherwise returns the [fieldInfos] the first run returned, so every
    entry keeps the format the first run gave it. *)
Theorem format_fieldInfos_idempotent (target_layer : layer) (fieldInfos : value) :
  format_fieldInfos target_layer fieldInfos ≫= format_fieldInfos target_layer
  = format_fieldInfos target_layer fieldInfos.
Proof.
  pose proof (for_each_update_idemp (format_field target_layer)) as Hloop.
  destruct fieldInfos as [| | |s|l|d]; try done.
  - cbn [format_fieldInfos iter mbind result_bind].
    destruct (for_each_update (format_field target_layer) (chars s)) eqn:Hl;
      [|done].
    cbn [format_fieldInfos iter mbind result_bind]. by rewrite Hl.
  - cbn [format_fieldInfos]. specialize (Hloop l (format_field_idemp target_layer)).
    destruct (for_each_update (format_field target_layer) l) as [l'|e]; [|done].
    cbn [fmap result_fmap mbind result_bind format_fieldInfos] in *.
    by rewrite Hloop.
  - cbn [format_fieldInfos iter mbind result_bind].
    destruct (for_each_update (format_field target_layer)
                (VStr <$> (map_to_list d).*1)) eqn:Hl; [|done].
    cbn [format_fieldInfos iter mbind result_bind]. by rewrite Hl.
Qed.

(** *** The synthesis of a popup *)

Lemma setitem_Ok v k x v' :
  setitem v k x = Ok v' → ∃ d, v = VDict d ∧ v' = VDict (<[k := x]> d).
Proof. destruct v; try discriminate. intros [= <-]. eauto. Qed.

(** What a completed synthesis has done, step by step: the popup was
    resolved, titled, described from the titled layer, and its
    [fieldInfos] were formatted; the operational layer holds the result
    under [popupInfo] and is otherwise as it was. *)
Lemma popup_synthesis_Ok map_service_type layer_name operational_layer
    target_layer operational_layer' :
  popup_synthesis map_service_type layer_name operational_layer target_layer
  = Ok operational_layer' →
  ∃ d pi desc fieldInfos fieldInfos',
    operational_layer = VDict d
    ∧ resolved_popupInfo operational_layer target_layer = Ok (VDict pi)
    ∧ customize_popup_description
        (VDict (<["popupInfo" := VDict (<["title" := VStr layer_name]> pi)]> d))
        map_service_type = Ok desc
    ∧ pi !! "fieldInfos" = Some fieldInfos
    ∧ format_fieldInfos target_layer fieldInfos = Ok fieldInfos'
    ∧ operational_layer' =
      VDict (<["popupInfo" :=
                 VDict (<["fieldInfos" := fieldInfos']>
                          (<["description" := VStr desc]>
                             (<["title" := VStr layer_name]> pi)))]> d).
Proof.
  unfold popup_synthesis, resolved_popupInfo. intros H.
  bind_inv H as popupInfo Hpopup.
  apply getitem_Ok in Hpopup as (d & -> & Hpopup). cbn [mbind result_bind].
  bind_inv H as operational_layer1 Hresolve.
  bind_inv H as popup Hpopup1.
  assert (∃ d1, operational_layer1 = VDict d1
                ∧ (∀ x, <["popupInfo" := x]> d1 = <["popupInfo" := x]> d)
                ∧ (if truthy popupInfo then Ok popupInfo
                   else getitem_popupInfo target_layer) = Ok popup)
    as (d1 & -> & Hd1 & Hresolved).
  { destruct (truthy popupInfo).
    - injection Hresolve as <-. exists d. split; [done|]. split; [done|].
      by rewrite (getitem_dict _ _ _ Hpopup) in Hpopup1.
    - bind_inv Hresolve as p Hp. injection Hresolve as <-.
      exists (<["popupInfo" := p]> d).
      split; [done|]. split; [intros x; apply insert_insert_eq|].
      rewrite (getitem_dict _ "popupInfo" p) in Hpopup1 by apply lookup_insert_eq.
      by injection Hpopup1 as <-. }
  rewrite Hresolved. clear Hresolve Hpopup1.
  bind_inv H as popup1 Htitle. apply setitem_Ok in Htitle as (pi & -> & ->).
  cbn [setitem mbind result_bind] in H. rewrite Hd1 in H.
  bind_inv H as desc Hdesc.
  bind_inv H as fieldInfos Hfields.
  apply getitem_Ok in Hfields as (? & [= <-] & Hfields).
  rewrite !lookup_insert_ne in Hfields by done.
  bind_inv H as fieldInfos' Hformat.
  rewrite insert_insert_eq in H.
  bind_inv H as t Ht. injection H as <-.
  by exists d, pi, desc, fieldInfos, fieldInfos'.
Qed.

Lemma feature_layer_popup_Ok P map_service_name map_service_type web_map
    layer_name web_map' :
  outcome (feature_layer_popup P map_service_name map_service_type web_map layer_name)
  = Ok web_map' →
  ∃ i operational_layer target_layer operational_layer',
    get_webmap_operational_layers web_map layer_name = Ok (i, operational_layer)
    ∧ outcome (get_feature_layer_from_feature_service P map_service_name
                 map_service_type layer_name) = Ok target_layer
    ∧ popup_synthesis map_service_type layer_name operational_layer target_layer
      = Ok operational_layer'
    ∧ web_map' = <[i := operational_layer']> web_map.
Proof.
  unfold feature_layer_popup.
  destruct (get_webmap_operational_layers web_map layer_name)
    as [[i operational_layer]|e]; [|discriminate].
  cbn [mbind io_bind lift outcome calls].
  destruct (get_feature_layer_from_feature_service P map_service_name
              map_service_type layer_name) as [log [target_layer|e]];
    [|discriminate].
  cbn [mbind io_bind lift outcome calls].
  destruct (popup_synthesis map_service_type layer_name operational_layer
              target_layer) as [operational_layer'|e] eqn:Hsynthesis;
    [|discriminate].
  cbn. intros [= <-]. by exists i, operational_layer, target_layer, operational_layer'.
Qed.

Lemma for_each_update_Forall2 {A B} (body : A → result B) (R : A → B → Prop) l l' :
  (∀ x y, body x = Ok y → R x y) →
  for_each_update body l = Ok l' → Forall2 R l l'.
Proof.
  intros Hbody. revert l'. induction l as [|x l IH]; intros l'; cbn.
  - intros [= <-]. constructor.
  - destruct (body x) as [y|] eqn:Hx; [|discriminate]. cbn.
    destruct (for_each_update body l) as [k|]; [|discriminate]. cbn.
    intros [= <-]. constructor; auto.
Qed.

Lemma decides_cases (n : value) (fields : list schema_field) :
  (∀ fld, fld ∈ fields → decides n fld = false)
  ∨ (∃ fld, fld ∈ fields ∧ decides n fld = true).
Proof.
  induction fields as [|fld fields [IH|(x & Hx & Hd)]].
  - left. by intros fld ?%elem_of_nil.
  - destruct (decides n fld) eqn:Hd.
    + right. exists fld. split; [by left|done].
    + left. intros x [->|Hx]%elem_of_cons; auto.
  - right. exists x. split; [by right|done].
Qed.

Lemma format_field_formatted tl fields field field' :
  properties_fields tl = Ok fields →
  format_field tl field = Ok field' →
  formatted_entry fields field field'.
Proof.
  intros Hfields Hfield.
  destruct (format_field_Ok _ _ _ _ Hfields Hfield)
    as [(d & n & -> & Hn & ->)|[-> ->]].
  - unfold schema_format. destruct (decides_cases n fields) as [Hno|Hsome].
    + rewrite scan_last_None by done. cbn.
      apply formatted_untouched. intros d' n' fld [= <-] Hn'. rewrite Hn in Hn'.
      injection Hn' as <-. apply Hno.
    + destruct (scan_last_Some (decides n) (fun _ fld => format_of fld)
                  fields None Hsome) as (k & fld & -> & Hk & Hd & Hlast).
      cbn. by eapply formatted_by_last.
  - apply formatted_untouched. by intros d n fld _ _ ?%elem_of_nil.
Qed.

Lemma format_of_numeric fld :
  format_of fld = format_double ∨ format_of fld = format_integer.
Proof. unfold format_of. destruct (String.eqb _ _); auto. Qed.

Lemma formatted_entry_changed fields field field' :
  formatted_entry fields field field' → format_changed field field'.
Proof.
  destruct 1; [|constructor]. apply format_set, format_of_numeric.
Qed.

Lemma format_field_changed tl field field' :
  format_field tl field = Ok field' → format_changed field field'.
Proof.
  intros Hfield. destruct (properties_fields tl) as [fields|e] eqn:Hfields.
  - eapply formatted_entry_changed, format_field_formatted; eauto.
  - unfold format_field in Hfield. by rewrite Hfields in Hfield.
Qed.

Lemma format_fieldInfos_changed tl fieldInfos fieldInfos' :
  format_fieldInfos tl fieldInfos = Ok fieldInfos' →
  formats_changed fieldInfos fieldInfos'.
Proof.
  destruct fieldInfos as [| | |s|l|d]; try discriminate.
  - cbn [format_fieldInfos iter mbind result_bind].
    destruct (for_each_update _ _); [|discriminate]. intros [= <-]. constructor.
  - cbn [format_fieldInfos].
    destruct (for_each_update (format_field tl) l) as [l'|] eqn:Hl;
      [|discriminate].
    intros [= <-]. apply formats_entries.
    eapply for_each_update_Forall2; [|exact Hl]. apply format_field_changed.
  - cbn [format_fieldInfos iter mbind result_bind].
    destruct (for_each_update _ _); [|discriminate]. intros [= <-]. constructor.
Qed.

Lemma format_fieldInfos_formatted tl fields l fieldInfos' :
  properties_fields tl = Ok fields →
  format_fieldInfos tl (VList l) = Ok fieldInfos' →
  ∃ l', fieldInfos' = VList l' ∧ Forall2 (formatted_entry fields) l l'.
Proof.
  intros Hfields. cbn [format_fieldInfos].
  destruct (for_each_update (format_field tl) l) as [l'|] eqn:Hl; [|discriminate].
  intros [= <-]. exists l'. split; [done|].
  eapply for_each_update_Forall2; [|exact Hl].
  intros x y. by apply format_field_formatted.
Qed.

(** When the schema fields have distinct names, the field that has the name
    of an entry is the one that decides it: the entry carries two places
    for a double, none for an integer, and is untouched for another type or
    when no field has its name. *)
Lemma formatted_entry_distinct_names fields d n e' :
  NoDup (fld_name <$> fields) →
  formatted_entry fields (VDict d) e' →
  d !! "fieldName" = Some (VStr n) →
  ∃ d', e' = VDict d'
    ∧ (∀ fld, fld ∈ fields → fld_name fld = n →
         (fld_type fld = "esriFieldTypeDouble" →
          d' !! "format" = Some format_double)
         ∧ (fld_type fld = "esriFieldTypeInteger" →
            d' !! "format" = Some format_integer)
         ∧ (fld_type fld ≠ "esriFieldTypeDouble" →
            fld_type fld ≠ "esriFieldTypeInteger" → d' = d))
    ∧ ((∀ fld, fld ∈ fields → fld_name fld ≠ n) → d' = d).
Proof.
  intros Hnames Hentry Hn.
  inversion Hentry as [d0 n0 k fld0 Hn0 Hk Hdec Hlast|e Hno]; subst.
  - rewrite Hn in Hn0. injection Hn0 as <-.
    unfold decides in Hdec. cbn [eq_str] in Hdec.
    apply andb_true_iff in Hdec as [Hname%String.eqb_eq Htype].
    eexists. split; [done|]. split.
    + intros fld [j Hj]%list_elem_of_lookup Hfld.
      assert (j = k) as ->.
      { eapply NoDup_lookup; [exact Hnames|..].
        - by rewrite list_lookup_fmap, Hj.
        - rewrite list_lookup_fmap, Hk. cbn. congruence. }
      rewrite Hk in Hj. injection Hj as <-. unfold format_of.
      split; [|split].
      * intros ->. by rewrite lookup_insert_eq.
      * intros ->. by rewrite lookup_insert_eq.
      * intros Hd%String.eqb_neq Hi%String.eqb_neq.
        by rewrite Hd, Hi in Htype.
    + intros Hnone. destruct (Hnone fld0); [|done].
      by eapply list_elem_of_lookup_2.
  - exists d. split; [done|]. split; [|done].
    intros fld Hfld Hname. specialize (Hno d (VStr n) fld eq_refl Hn Hfld).
    unfold decides in Hno. cbn [eq_str] in Hno.
    rewrite <- Hname, String.eqb_refl in Hno. cbn [andb] in Hno.
    apply orb_false_iff in Hno as [Hd%String.eqb_neq Hi%String.eqb_neq].
    done.
Qed.

Lemma get_webmap_operational_layers_loop_lookup layer_name pre l acc r :
  (∀ i x, acc = Some (i, x) → (pre ++ l) !! i = Some x) →
  for_each
    (fun (operational_layer : option (nat * value)) '(i, layer) =>
       b ← title_contains layer layer_name;
       if b : bool then Ok (Some (i, layer)) else Ok operational_layer)
    (zip (seq (length pre) (length l)) l) acc = Ok r →
  ∀ i x, r = Some (i, x) → (pre ++ l) !! i = Some x.
Proof.
  revert pre acc. induction l as [|y l IH]; intros pre acc Hacc; cbn.
  - by intros [= <-].
  - destruct (title_contains y layer_name) as [b|]; [|discriminate]. cbn.
    specialize (IH (pre ++ [y])).
    rewrite length_app, Nat.add_1_r, <- app_assoc in IH.
    destruct b; cbn; apply IH; [|done].
    intros i x [= <- <-]. by apply list_lookup_middle.
Qed.

Lemma get_webmap_operational_layers_lookup web_map layer_name i layer :
  get_webmap_operational_layers web_map layer_name = Ok (i, layer) →
  web_map !! i = Some layer.
Proof.
  unfold get_webmap_operational_layers.
  destruct (for_each _ _ _) as [r|] eqn:Hloop; [|discriminate]. cbn.
  destruct r as [[j x]|]; [|discriminate]. intros [= -> ->].
  by eapply (get_webmap_operational_layers_loop_lookup layer_name [] web_map None).
Qed.

(** A completed run, from the operational layer that was found to the web
    map that is left. *)
Lemma feature_layer_popup_result P map_service_name map_service_type web_map
    layer_name web_map' i ol :
  outcome (feature_layer_popup P map_service_name map_service_type web_map layer_name)
  = Ok web_map' →
  get_webmap_operational_layers web_map layer_name = Ok (i, VDict ol) →
  ∃ target_layer pi desc fieldInfos fieldInfos',
    outcome (get_feature_layer_from_feature_service P map_service_name
               map_service_type layer_name) = Ok target_layer
    ∧ resolved_popupInfo (VDict ol) target_layer = Ok (VDict pi)
    ∧ customize_popup_description
        (VDict (<["popupInfo" := VDict (<["title" := VStr layer_name]> pi)]> ol))
        map_service_type = Ok desc
    ∧ pi !! "fieldInfos" = Some fieldInfos
    ∧ format_fieldInfos target_layer fieldInfos = Ok fieldInfos'
    ∧ web_map' =
      <[i := VDict (<["popupInfo" :=
                        VDict (<["fieldInfos" := fieldInfos']>
                                 (<["description" := VStr desc]>
                                    (<["title" := VStr layer_name]> pi)))]> ol)]>
        web_map
    ∧ i < length web_map.
Proof.
  intros (i' & ol0 & target_layer & ol' & Hfound & Hfetch & Hsynthesis & ->)
    %feature_layer_popup_Ok Hfound'.
  rewrite Hfound' in Hfound. injection Hfound as <- <-.
  apply popup_synthesis_Ok in Hsynthesis
    as (d & pi & desc & fieldInfos & fieldInfos' & [= <-] & Hresolved & Hdesc
        & Hfields & Hformat & ->).
  exists target_layer, pi, desc, fieldInfos, fieldInfos'.
  repeat (split; [done|]).
  apply get_webmap_operational_layers_lookup in Hfound'.
  by eapply lookup_lt_Some.
Qed.





(** C4, as the program has it.  After a completed run every entry of a
    [fieldInfos] list is as the last schema field that decides it leaves it:
    an entry whose [fieldName] is the name of schema fields of type double
    or integer carries the format of the last of them in schema order, two
    places for a double and none for an integer, both without digit
    separator; an entry that no such field names is untouched. *)
Theorem numeric_formats_by_last_field (P : GIS)
    (map_service_name map_service_type : string)
    (web_map : list value) (layer_name : string) (web_map' : list value)
    (i : nat) (ol : gmap string value) (target_layer : layer)
    (fields : list schema_field) :
  outcome (feature_layer_popup P map_service_name map_service_type web_map layer_name)
  = Ok web_map' →
  get_webmap_operational_layers web_map layer_name = Ok (i, VDict ol) →
  outcome (get_feature_layer_from_feature_service P map_service_name
             map_service_type layer_name) = Ok target_layer →
  properties_fields target_layer = Ok fields →
  ∃ pi pi' ol',
    resolved_popupInfo (VDict ol) target_layer = Ok (VDict pi)
    ∧ web_map' !! i = Some (VDict ol')
    ∧ ol' !! "popupInfo" = Some (VDict pi')
    ∧ ∀ l, pi !! "fieldInfos" = Some (VList l) →
           ∃ l', pi' !! "fieldInfos" = Some (VList l')
                 ∧ Forall2 (formatted_entry fields) l l'.
Proof.
  intros Hrun Hfound Hfetch Hschema.
  destruct (feature_layer_popup_result _ _ _ _ _ _ _ _ Hrun Hfound)
    as (tl & pi & desc & fieldInfos & fieldInfos' & Hfetch' & Hresolved & Hdesc
        & Hfields & Hformat & -> & Hi).
  rewrite Hfetch in Hfetch'. injection Hfetch' as <-.
  eexists pi, _, _. split; [done|].
  split; [by apply list_lookup_insert_eq|].
  split; [by apply lookup_insert_eq|].
  intros l Hl. rewrite Hfields in Hl. injection Hl as ->.
  destruct (format_fieldInfos_formatted _ _ _ _ Hschema Hformat)
    as (l' & -> & Hentries).
  exists l'. split; [by simplify_map_eq|done].
Qed.

Lemma numeric_formats_by_last_field_witness :
  ∃ pi pi' ol',
    resolved_popupInfo (VDict hosted_operational_layer)
      (fetched (get_feature_layer_from_feature_service (sample_portal hosted_item)
                  "Town_Map" "Feature Layer" "Parcels")) = Ok (VDict pi)
    ∧ completed (feature_layer_popup (sample_portal hosted_item) "Town_Map"
                   "Feature Layer" hosted_web_map "Parcels") !! 0
      = Some (VDict ol')
    ∧ ol' !! "popupInfo" = Some (VDict pi')
    ∧ ∀ l, pi !! "fieldInfos" = Some (VList l) →
           ∃ l', pi' !! "fieldInfos" = Some (VList l')
                 ∧ Forall2 (formatted_entry parcels_fields) l l'.
Proof.
  apply (numeric_formats_by_last_field (sample_portal hosted_item) "Town_Map"
           "Feature Layer" hosted_web_map "Parcels").
  - vm_compute. reflexivity.
  - vm_compute. reflexivity.
  - vm_compute. reflexivity.
  - vm_compute. reflexivity.
Defined.

(** C4 as stated fails when two schema fields share a name: the entry named
    Area, which is the name of a schema field of type double, is left with
    the format of the integer field of that name that comes after it. *)
Lemma numeric_formats_duplicate_names :
  ∃ ol' pi' entry,
    outcome (feature_layer_popup (sample_portal duplicate_item) "Town_Map"
               "Feature Layer" duplicate_web_map "Parcels")
    = Ok [VDict ol']
    ∧ ol' !! "popupInfo" = Some (VDict pi')
    ∧ pi' !! "fieldInfos" = Some (VList [VDict entry])
    ∧ entry !! "fieldName" = Some (VStr "Area")
    ∧ properties_fields
        (fetched (get_feature_layer_from_feature_service
                    (sample_portal duplicate_item) "Town_Map" "Feature Layer"
                    "Parcels"))
      = Ok [ {| fld_name := "Area"; fld_type := "esriFieldTypeDouble" |};
             {| fld_name := "Area"; fld_type := "esriFieldTypeInteger" |} ]
    ∧ entry !! "format" = Some format_integer
    ∧ entry !! "format" ≠ Some format_double.
Proof.
  eexists _, _, _. split; [vm_compute; reflexivity|].
  split; [vm_compute; reflexivity|]. split; [vm_compute; reflexivity|].
  split; [vm_compute; reflexivity|]. split; [vm_compute; reflexivity|].
  split; [vm_compute; reflexivity|]. vm_compute. discriminate.
Qed.

(** *** The checks of create_new_webmap *)

Lemma check_layer_names_raise (l : list value) :
  (∃ x, x ∈ l ∧ ∀ s, x ≠ VStr s) →
  for_each_update check_layer_name l
  = Raise (TypeError "expected layer name to be type of str").
Proof.
  induction l as [|y l IH]; intros (x & Hx & Hstr).
  { by apply elem_of_nil in Hx. }
  cbn. destruct y as [| | |s| |];
    try done.
  cbn. apply elem_of_cons in Hx as [->|Hx]; [by destruct (Hstr s)|].
  rewrite IH; [done|]. by exists x.
Qed.

(** C10.  When [project_name] is not a string, or [layer_names] is not a
    list, or some element of [layer_names] is not a string,
    [create_new_webmap] raises a [TypeError] and has made no call to the
    portal: nothing was searched, fetched, updated, protected, shared or
    saved. *)
Theorem create_new_webmap_type_errors (P : GIS)
    (WebMap_add_layer : list value → layer → list value)
    (project_name layer_names : value) (args : list value) :
  (∀ s, project_name ≠ VStr s)
  ∨ (∀ l, layer_names ≠ VList l)
  ∨ (∃ l x, layer_names = VList l ∧ x ∈ l ∧ ∀ s, x ≠ VStr s) →
  ∃ msg,
    create_new_webmap P WebMap_add_layer project_name layer_names args
    = IO [] (Raise (TypeError msg)).
Proof.
  intros Hbad. unfold create_new_webmap.
  destruct project_name as [| | |project_name| |]; try by eexists.
  destruct layer_names as [| | | |layer_names|]; try by eexists.
  destruct Hbad as [Hbad|[Hbad|(l & x & [= <-] & Hx & Hstr)]].
  - by destruct (Hbad project_name).
  - by destruct (Hbad layer_names).
  - eexists. unfold lift. rewrite check_layer_names_raise by eauto. done.
Qed.

Lemma create_new_webmap_type_errors_witness :
  (∃ msg, create_new_webmap (sample_portal hosted_item) (fun web_map _ => web_map)
            (VInt 7) (VList [VStr "Parcels"]) []
          = IO [] (Raise (TypeError msg)))
  ∧ (∃ msg, create_new_webmap (sample_portal hosted_item) (fun web_map _ => web_map)
              (VStr "Town") (VStr "Parcels") []
            = IO [] (Raise (TypeError msg)))
  ∧ (∃ msg, create_new_webmap (sample_portal hosted_item) (fun web_map _ => web_map)
              (VStr "Town") (VList [VStr "Parcels"; VNone]) []
            = IO [] (Raise (TypeError msg))).
Proof.
  split; [|split]; apply create_new_webmap_type_errors.
  - left. discriminate.
  - right. left. discriminate.
  - right. right. exists [VStr "Parcels"; VNone], VNone.
    split; [reflexivity|]. split; [|discriminate].
    right. left.
Defined.

(** ** Further properties of the program *)

(** *** split_uppercase: nothing is lost but the outer white space *)

Lemma spaced_head_not_upper r :
  match spaced r with "" => True | String d _ => isupper d = false end.
Proof.
  destruct r as [|c r]; [done|]. cbn.
  destruct (isupper c) eqn:Hc; [reflexivity|done].
Qed.

Lemma unspace_cons_spaced c r :
  unspace (String c (spaced r)) = String c (unspace (spaced r)).
Proof.
  pose proof (spaced_head_not_upper r) as Hhead.
  destruct (spaced r) as [|d s]; [done|].
  cbn [unspace]. by rewrite Hhead, andb_false_r.
Qed.

Lemma unspace_spaced r : unspace (spaced r) = r.
Proof.
  induction r as [|c r IH]; [done|]. cbn [spaced].
  destruct (isupper c) eqn:Hc.
  - change (unspace (String " " (String c (spaced r))))
      with (if Ascii.eqb " " " " && isupper c
            then unspace (String c (spaced r))
            else String " " (unspace (String c (spaced r)))).
    rewrite Hc, Ascii.eqb_refl. cbn [andb].
    by rewrite unspace_cons_spaced, IH.
  - by rewrite unspace_cons_spaced, IH.
Qed.

(** X1.  Removing the space before each upper-case letter of the result of
    [split_uppercase] gives back the trimmed word; two words with the same
    result are therefore the same up to the white space at their ends. *)
Theorem split_uppercase_unspace (w : string) :
  unspace (split_uppercase w) = strip w
  ∧ ∀ w', split_uppercase w = split_uppercase w' → strip w = strip w'.
Proof.
  assert (∀ u, unspace (split_uppercase u) = strip u) as Hunspace.
  { intros u. rewrite split_uppercase_strip.
    destruct (strip u) as [|c r]; [done|]. cbn [separate_internal].
    by rewrite unspace_cons_spaced, unspace_spaced. }
  split; [apply Hunspace|].
  intros w' Heq. by rewrite <- (Hunspace w), <- (Hunspace w'), Heq.
Qed.

(** *** Layer resolution: range, failure, empty name, missing title *)

Lemma pred_cases {A} (p : A → bool) (l : list A) :
  (∀ x, x ∈ l → p x = false) ∨ (∃ x, x ∈ l ∧ p x = true).
Proof.
  induction l as [|y l [IH|(x & Hx & Hp)]].
  - left. by intros x ?%elem_of_nil.
  - destruct (p y) eqn:Hy.
    + right. exists y. split; [by left|done].
    + left. intros x [->|Hx]%elem_of_cons; auto.
  - right. exists x. split; [by right|done].
Qed.

(** X2.  [get_feature_layer_index] returns an index exactly when some layer
    matches: the index is then within the collection and is that of a layer
    whose name contains the layer name.  Its only failure is the unbound
    local, and it fails only when no layer matches. *)
Theorem get_feature_layer_index_sound (fc : item) (layer_name : string) :
  match get_feature_layer_index fc layer_name with
  | Ok i =>
      i < length (layers fc)
      ∧ ∃ l, layers fc !! i = Some l
             ∧ contains (properties_name l) layer_name = true
  | Raise e =>
      e = UnboundLocalError "layer_index"
      ∧ ∀ l, l ∈ layers fc → contains (properties_name l) layer_name = false
  end.
Proof.
  rewrite get_feature_layer_index_scan.
  destruct (pred_cases (fun l => contains (properties_name l) layer_name)
              (layers fc)) as [Hno|Hsome].
  - by rewrite scan_last_None.
  - destruct (scan_last_Some _ (fun i (_ : layer) => i) (layers fc) None Hsome)
      as (i & l & -> & Hi & Hl & _).
    split; [by eapply lookup_lt_Some|]. by exists l.
Qed.

Lemma contains_empty s : contains s "" = true.
Proof. by destruct s. Qed.

(** X3.  Every name contains the empty string: for the empty layer name
    [get_feature_layer_index] returns the index of the last layer of a
    collection that has layers. *)
Theorem get_feature_layer_index_empty_name (fc : item) :
  layers fc ≠ [] →
  get_feature_layer_index fc "" = Ok (length (layers fc) - 1).
Proof.
  intros Hne. rewrite get_feature_layer_index_scan.
  destruct (layers fc) as [|y l] using rev_ind; [done|].
  rewrite scan_last_snoc, contains_empty, length_app. cbn.
  do 2 f_equal. lia.
Qed.

Lemma get_feature_layer_index_empty_name_witness :
  get_feature_layer_index (sample_collection ["Roads"; "Parcels"]) ""
  = Ok (length (layers (sample_collection ["Roads"; "Parcels"])) - 1).
Proof. apply get_feature_layer_index_empty_name. discriminate. Defined.

(** X4.  When the title of no operational layer contains the layer name,
    [feature_layer_popup] fails on the unbound local [operational_layer]
    before any call to the portal. *)
Theorem feature_layer_popup_no_operational_layer (P : GIS)
    (map_service_name map_service_type : string) (web_map : list value)
    (layer_name : string) :
  (∀ l, l ∈ web_map → title_contains l layer_name = Ok false) →
  feature_layer_popup P map_service_name map_service_type web_map layer_name
  = IO [] (Raise (UnboundLocalError "operational_layer")).
Proof.
  intros Hno. unfold feature_layer_popup.
  rewrite get_webmap_operational_layers_scan.
  2:{ apply Forall_forall. intros l Hl. exists false. by apply Hno. }
  rewrite scan_last_None; [done|].
  intros l Hl. unfold title_matches. by rewrite Hno.
Qed.

Lemma feature_layer_popup_no_operational_layer_witness :
  feature_layer_popup (sample_portal hosted_item) "Town_Map" "Feature Layer"
    hosted_web_map "Roads"
  = IO [] (Raise (UnboundLocalError "operational_layer")).
Proof.
  apply feature_layer_popup_no_operational_layer.
  intros l [->|[]%elem_of_nil]%elem_of_cons. reflexivity.
Defined.

Lemma get_webmap_operational_layers_loop_raise layer_name pre x post e k acc :
  Forall (searchable layer_name) pre →
  title_contains x layer_name = Raise e →
  for_each
    (fun (operational_layer : option (nat * value)) '(i, layer) =>
       b ← title_contains layer layer_name;
       if b : bool then Ok (Some (i, layer)) else Ok operational_layer)
    (zip (seq k (length (pre ++ x :: post))) (pre ++ x :: post)) acc
  = Raise e.
Proof.
  intros Hpre Hx. revert k acc.
  induction Hpre as [|y pre [b Hy] _ IH]; intros k acc; cbn.
  - by rewrite Hx.
  - rewrite Hy. cbn. destruct b; cbn; apply IH.
Qed.

(** X5.  An operational layer without a title stops the search: when the
    layers before it can be searched, [get_webmap_operational_layers] raises
    the [KeyError] of the missing key, whatever the layers after it hold. *)
Theorem get_webmap_operational_layers_missing_title
    (pre post : list value) (d : gmap string value) (layer_name : string) :
  Forall (searchable layer_name) pre →
  d !! "title" = None →
  get_webmap_operational_layers (pre ++ VDict d :: post) layer_name
  = Raise (KeyError "title").
Proof.
  intros Hpre Hd. unfold get_webmap_operational_layers.
  rewrite (get_webmap_operational_layers_loop_raise layer_name pre (VDict d)
             post (KeyError "title")); [done|done|].
  unfold title_contains, getitem. by rewrite Hd.
Qed.

Lemma get_webmap_operational_layers_missing_title_witness :
  get_webmap_operational_layers
    ([titled "Roads"] ++ VDict ∅ :: [titled "Parcels"]) "Parcels"
  = Raise (KeyError "title").
Proof.
  apply get_webmap_operational_layers_missing_title.
  - repeat constructor. eexists. reflexivity.
  - reflexivity.
Defined.

(** *** The popup description: prefix and silent entries *)

Lemma customize_popup_field_extends acc field acc' :
  customize_popup_field acc field = Ok acc' → ∃ line, acc' = acc +:+ line.
Proof.
  unfold customize_popup_field.
  destruct (getitem field "fieldName" ≫= as_str) as [n|]; [|discriminate].
  cbn [mbind result_bind].
  destruct (any_isupper n && negb (mem n NO_POPUP_FIELDS)).
  { intros [= <-]. eauto. }
  destruct (getitem field "label" ≫= as_str) as [l|]; [|discriminate].
  cbn [mbind result_bind].
  destruct (any_isupper l && negb (mem l NO_POPUP_FIELDS)); intros [= <-].
  - eauto.
  - exists "". by rewrite append_nil_r.
Qed.

Lemma customize_popup_fields_extend fieldInfos acc acc' :
  for_each customize_popup_field fieldInfos acc = Ok acc' →
  ∃ lines, acc' = acc +:+ lines.
Proof.
  revert acc. induction fieldInfos as [|field fieldInfos IH]; intros acc; cbn.
  - intros [= <-]. exists "". by rewrite append_nil_r.
  - destruct (customize_popup_field acc field) as [acc1|] eqn:Hfield;
      [|discriminate].
    cbn. intros (lines & ->)%IH.
    apply customize_popup_field_extends in Hfield as (line & ->).
    exists (line +:+ lines). by rewrite append_assoc.
Qed.

(** X6.  Whatever the operational layer holds, a description that
    [customize_popup_description] returns starts with the font prefix; for
    a service kind other than "Feature Layer" it is the prefix alone, and
    the popup is not looked at. *)
Theorem customize_popup_description_prefix
    (operational_layer : value) (map_service_type : string) :
  (∀ description,
     customize_popup_description operational_layer map_service_type
     = Ok description →
     ∃ lines, description = font_prefix +:+ lines)
  ∧ (map_service_type ≠ "Feature Layer" →
     ∀ t, getitem operational_layer "title" = Ok t →
          customize_popup_description operational_layer map_service_type
          = Ok font_prefix).
Proof.
  unfold customize_popup_description. split.
  - intros description.
    destruct (String.eqb map_service_type "Feature Layer").
    + destruct (getitem operational_layer "popupInfo") as [popup|];
        [|discriminate].
      cbn [mbind result_bind].
      destruct (getitem popup "fieldInfos" ≫= iter) as [fieldInfos|];
        [|discriminate].
      cbn [mbind result_bind].
      destruct (for_each customize_popup_field fieldInfos font_prefix)
        as [acc|] eqn:Hloop; [|discriminate].
      cbn [mbind result_bind].
      destruct (getitem operational_layer "title"); [|discriminate].
      cbn. intros [= <-]. by eapply customize_popup_fields_extend.
    + cbn [mbind result_bind].
      destruct (getitem operational_layer "title"); [|discriminate].
      cbn. intros [= <-]. exists "". by rewrite append_nil_r.
  - intros Hkind%String.eqb_neq t Ht. rewrite Hkind. cbn [mbind result_bind].
    by rewrite Ht.
Qed.

Lemma customize_popup_description_prefix_witness :
  customize_popup_description (titled "Parcels") "Map Image Layer"
  = Ok font_prefix.
Proof.
  eapply (customize_popup_description_prefix (titled "Parcels") "Map Image Layer").
  - discriminate.
  - reflexivity.
Defined.

Lemma customize_popup_fields_silent fieldInfos acc :
  Forall silent_entry fieldInfos →
  for_each customize_popup_field fieldInfos acc = Ok acc.
Proof.
  induction 1 as [|field fieldInfos (d & n & l & -> & Hn & Hqn & Hl & Hql) _ IH];
    [done|].
  cbn [for_each]. rewrite (customize_popup_field_line acc (VDict d) "").
  - cbn [mbind result_bind]. by rewrite append_nil_r.
  - by eapply line_nothing.
Qed.

(** X7.  Entries whose [fieldName] and [label] both have no upper-case
    letter or are excluded give no line: when every entry of [fieldInfos] is
    such, the description of a titled operational layer is the prefix
    alone. *)
Theorem customize_popup_description_silent
    (operational_layer popupInfo : gmap string value) (title : value)
    (fieldInfos : list value) :
  operational_layer !! "title" = Some title →
  operational_layer !! "popupInfo" = Some (VDict popupInfo) →
  popupInfo !! "fieldInfos" = Some (VList fieldInfos) →
  Forall silent_entry fieldInfos →
  customize_popup_description (VDict operational_layer) "Feature Layer"
  = Ok font_prefix.
Proof.
  intros Htitle Hpopup Hfields Hsilent.
  unfold customize_popup_description. cbn [String.eqb].
  rewrite (getitem_dict _ _ _ Hpopup). cbn.
  rewrite Hfields. cbn.
  rewrite (customize_popup_fields_silent _ _ Hsilent). cbn.
  by rewrite Htitle.
Qed.

Lemma customize_popup_description_silent_witness :
  customize_popup_description
    (VDict (sample_operational_layer "Parcels"
              [VDict (labelled_field_info "OBJECTID" "OBJECTID");
               VDict (labelled_field_info "owner" "owner")]))
    "Feature Layer"
  = Ok font_prefix.
Proof.
  eapply (customize_popup_description_silent
            (sample_operational_layer "Parcels"
               [VDict (labelled_field_info "OBJECTID" "OBJECTID");
                VDict (labelled_field_info "owner" "owner")])).
  - reflexivity.
  - reflexivity.
  - reflexivity.
  - repeat constructor.
    + exists (labelled_field_info "OBJECTID" "OBJECTID"), "OBJECTID", "OBJECTID".
      repeat split; reflexivity.
    + exists (labelled_field_info "owner" "owner"), "owner", "owner".
      repeat split; reflexivity.
Defined.

(** *** The formatting loop: empty schema, unnamed entries *)

Lemma for_each_update_id {A} (body : A → result A) l :
  (∀ x, body x = Ok x) → for_each_update body l = Ok l.
Proof.
  intros Hbody. induction l as [|x l IH]; [done|].
  cbn. rewrite Hbody. cbn. by rewrite IH.
Qed.

(** X8.  When the target layer has no schema field the formatting loop
    leaves a list of [fieldInfos] as it is, whatever its entries are: the
    entries are not looked at. *)
Theorem format_fieldInfos_no_fields (target_layer : layer) (l : list value) :
  properties_fields target_layer = Ok [] →
  format_fieldInfos target_layer (VList l) = Ok (VList l).
Proof.
  intros Hfields. cbn [format_fieldInfos].
  rewrite for_each_update_id; [done|].
  intros x. unfold format_field. by rewrite Hfields.
Qed.

Lemma format_fieldInfos_no_fields_witness :
  format_fieldInfos (sample_layer "Parcels") (VList [VNone; VDict ∅])
  = Ok (VList [VNone; VDict ∅]).
Proof. apply format_fieldInfos_no_fields. reflexivity. Defined.

Lemma format_field_named tl fields field :
  properties_fields tl = Ok fields → named_entry field →
  ∃ field', format_field tl field = Ok field'.
Proof.
  intros Hfields (d & n & -> & Hn). unfold format_field. rewrite Hfields.
  cbn [mbind result_bind]. rewrite (format_field_steps_dict d n fields Hn).
  eauto.
Qed.

Lemma for_each_update_raise {A B} (body : A → result B) pre x post e :
  Forall (fun y => ∃ y', body y = Ok y') pre →
  body x = Raise e →
  for_each_update body (pre ++ x :: post) = Raise e.
Proof.
  intros Hpre Hx. induction Hpre as [|y pre [y' Hy] _ IH]; cbn.
  - by rewrite Hx.
  - rewrite Hy. cbn. by rewrite IH.
Qed.

(** X9.  When the target layer has a schema field, an entry of [fieldInfos]
    without a [fieldName] stops the formatting: after entries that have
    one, the loop raises the [KeyError] of the missing key, and no
    [fieldInfos] is returned. *)
Theorem format_fieldInfos_missing_fieldName (target_layer : layer)
    (fld : schema_field) (fields : list schema_field)
    (pre post : list value) (d : gmap string value) :
  properties_fields target_layer = Ok (fld :: fields) →
  Forall named_entry pre →
  d !! "fieldName" = None →
  format_fieldInfos target_layer (VList (pre ++ VDict d :: post))
  = Raise (KeyError "fieldName").
Proof.
  intros Hfields Hpre Hd. cbn [format_fieldInfos].
  rewrite (for_each_update_raise _ pre (VDict d) post (KeyError "fieldName")).
  - done.
  - eapply Forall_impl; [exact Hpre|]. intros y Hy.
    by eapply format_field_named.
  - unfold format_field. rewrite Hfields. cbn.
    unfold format_field_step, getitem. by rewrite Hd.
Qed.

Lemma format_fieldInfos_missing_fieldName_witness :
  format_fieldInfos registered_layer
    (VList ([VDict (field_info "Area")] ++ VDict ∅ :: [VDict (field_info "Lots")]))
  = Raise (KeyError "fieldName").
Proof.
  eapply format_fieldInfos_missing_fieldName.
  - reflexivity.
  - repeat constructor. exists (field_info "Area"), (VStr "Area").
    split; reflexivity.
  - reflexivity.
Defined.

(** *** The calls to the portal *)

Lemma calls_bind {A B} (m : io A) (f : A → io B) :
  calls (m ≫= f)
  = calls m ++ match outcome m with Ok a => calls (f a) | Raise _ => [] end.
Proof.
  unfold mbind, io_bind. destruct (outcome m); [done|]. by rewrite app_nil_r.
Qed.

Lemma outcome_bind {A B} (m : io A) (f : A → io B) :
  outcome (m ≫= f)
  = match outcome m with Ok a => outcome (f a) | Raise e => Raise e end.
Proof. unfold mbind, io_bind. by destruct (outcome m). Qed.

(** The three ways [get_portal_item] ends. *)
Lemma get_portal_item_cases P item_name item_type :
  get_portal_item P item_name item_type =
  match content_search P (item_query P item_name) item_type with
  | [] =>
      IO [Search (item_query P item_name) item_type]
        (Raise (KeyError ("unable to find " +:+ item_name)))
  | item :: _ =>
      IO [Search (item_query P item_name) item_type; Get (id item)]
        match content_get P (id item) with
        | Some portal_item => Ok portal_item
        | None =>
            Raise (KeyError ("unable to find an item with id of '"
                             +:+ id item +:+ "'"))
        end
  end.
Proof.
  unfold get_portal_item, item_query.
  destruct (content_search P _ item_type) as [|item rest]; [done|].
  by destruct (content_get P (id item)).
Qed.

Lemma get_portal_item_read_only P item_name item_type :
  Forall (fun c => read_only c = true) (calls (get_portal_item P item_name item_type))
  ∧ length (calls (get_portal_item P item_name item_type)) ≤ 2.
Proof.
  rewrite get_portal_item_cases.
  destruct (content_search P _ item_type); cbn; split; repeat constructor.
Qed.

Lemma get_feature_layer_from_feature_service_read_only P msn mst layer_name :
  Forall (fun c => read_only c = true)
    (calls (get_feature_layer_from_feature_service P msn mst layer_name))
  ∧ length (calls (get_feature_layer_from_feature_service P msn mst layer_name)) ≤ 3.
Proof.
  unfold get_feature_layer_from_feature_service.
  destruct (get_portal_item_read_only P msn mst) as [Hread Hlen].
  rewrite calls_bind.
  destruct (outcome (get_portal_item P msn mst)) as [feature_layers|].
  2:{ rewrite app_nil_r. split; [done|lia]. }
  assert (calls
            (call (GetData (id feature_layers)) ≫= λ _ : (),
               lift (get_feature_layer_index feature_layers layer_name) ≫= λ layer_index,
                 match get_data feature_layers with
                 | Some data_layers => lift (Py.index data_layers layer_index)
                 | None => lift (Py.index (layers feature_layers) layer_index)
                 end) = [GetData (id feature_layers)]) as ->.
  { rewrite calls_bind. cbn [call calls outcome]. rewrite calls_bind.
    cbn [lift calls outcome].
    destruct (get_feature_layer_index feature_layers layer_name); [|done].
    by destruct (get_data feature_layers). }
  split.
  - apply Forall_app. split; [done|]. by repeat constructor.
  - rewrite length_app. cbn [length]. lia.
Qed.

Lemma feature_layer_popup_read_only P msn mst web_map layer_name :
  Forall (fun c => read_only c = true)
    (calls (feature_layer_popup P msn mst web_map layer_name))
  ∧ length (calls (feature_layer_popup P msn mst web_map layer_name)) ≤ 3.
Proof.
  unfold feature_layer_popup. rewrite calls_bind. cbn [lift calls outcome].
  destruct (get_webmap_operational_layers web_map layer_name)
    as [[i operational_layer]|]; [|cbn; split; [done|lia]].
  rewrite calls_bind.
  destruct (get_feature_layer_from_feature_service_read_only P msn mst layer_name)
    as [Hread Hlen].
  destruct (outcome (get_feature_layer_from_feature_service P msn mst layer_name))
    as [target_layer|].
  2:{ cbn. rewrite app_nil_r. by split. }
  rewrite calls_bind. cbn [lift calls outcome].
  destruct (popup_synthesis mst layer_name operational_layer target_layer);
    cbn; rewrite app_nil_r; by split.
Qed.

Lemma for_each_io_calls {A B} (body : B → A → io B) (Q : portal_call → Prop)
    (n : nat) l acc :
  (∀ acc x, Forall Q (calls (body acc x)) ∧ length (calls (body acc x)) ≤ n) →
  Forall Q (calls (for_each_io body l acc))
  ∧ length (calls (for_each_io body l acc)) ≤ n * length l.
Proof.
  intros Hbody. revert acc. induction l as [|x l IH]; intros acc.
  - cbn. split; [done|lia].
  - cbn [for_each_io]. rewrite calls_bind.
    destruct (Hbody acc x) as [HQ Hlen].
    destruct (outcome (body acc x)) as [acc'|].
    + destruct (IH acc') as [HQ' Hlen'].
      split; [by apply Forall_app|]. rewrite length_app. cbn [length]. lia.
    + rewrite app_nil_r. split; [done|]. cbn [length]. lia.
Qed.

(** X10.  The popups are made without a change to the portal: whatever its
    arguments and its outcome, [create_popups] only searches and fetches,
    and it makes at most three calls for each layer name. *)
Theorem create_popups_read_only (P : GIS) (web_map : list value)
    (project_name : string) (layer_names : list string) :
  Forall (fun c => read_only c = true)
    (calls (create_popups P web_map project_name layer_names))
  ∧ length (calls (create_popups P web_map project_name layer_names))
    ≤ 3 * length layer_names.
Proof.
  unfold create_popups. destruct layer_names as [|layer_name layer_names].
  { cbn. split; [done|lia]. }
  apply for_each_io_calls. intros acc x. apply feature_layer_popup_read_only.
Qed.

(** *** Failures on the way to a popup *)

Lemma feature_layer_popup_outcome P msn mst web_map layer_name i ol tl :
  get_webmap_operational_layers web_map layer_name = Ok (i, ol) →
  outcome (get_feature_layer_from_feature_service P msn mst layer_name) = Ok tl →
  outcome (feature_layer_popup P msn mst web_map layer_name)
  = (fun ol' => <[i := ol']> web_map) <$> popup_synthesis mst layer_name ol tl.
Proof.
  intros Hfound Hfetch. unfold feature_layer_popup.
  rewrite outcome_bind, Hfound. cbn [lift outcome].
  rewrite outcome_bind, Hfetch, outcome_bind. cbn [lift outcome].
  by destruct (popup_synthesis mst layer_name ol tl).
Qed.

(** X11.  An operational layer without the key [popupInfo] is not taken for
    a layer with an empty popup: once the layer and the target layer are
    found, [feature_layer_popup] raises the [KeyError] of the missing key
    and returns no web map. *)
Theorem feature_layer_popup_missing_popupInfo (P : GIS)
    (map_service_name map_service_type : string) (web_map : list value)
    (layer_name : string) (i : nat) (ol : gmap string value)
    (target_layer : layer) :
  get_webmap_operational_layers web_map layer_name = Ok (i, VDict ol) →
  ol !! "popupInfo" = None →
  outcome (get_feature_layer_from_feature_service P map_service_name
             map_service_type layer_name) = Ok target_layer →
  outcome (feature_layer_popup P map_service_name map_service_type
             web_map layer_name)
  = Raise (KeyError "popupInfo").
Proof.
  intros Hfound Hpopup Hfetch.
  rewrite (feature_layer_popup_outcome _ _ _ _ _ _ _ _ Hfound Hfetch).
  unfold popup_synthesis, getitem. by rewrite Hpopup.
Qed.

Lemma feature_layer_popup_missing_popupInfo_witness :
  outcome (feature_layer_popup (sample_portal registered_item) "Town_Map"
             "Feature Layer" [titled "Parcels"] "Parcels")
  = Raise (KeyError "popupInfo").
Proof.
  eapply (feature_layer_popup_missing_popupInfo (sample_portal registered_item)
            "Town_Map" "Feature Layer" [titled "Parcels"] "Parcels" 0
            (<["title" := VStr "Parcels"]> ∅) registered_layer).
  - vm_compute. reflexivity.
  - vm_compute. reflexivity.
  - vm_compute. reflexivity.
Defined.

(** X12.  The index of the target layer is found among the layers of the
    collection and, when the item has a data payload, used on the layers of
    the payload: the layer at that position of the payload is returned, and
    a payload with fewer layers gives an [IndexError]. *)
Theorem get_feature_layer_from_feature_service_payload (P : GIS)
    (map_service_name map_service_type layer_name : string)
    (feature_layers : item) (data_layers : list layer) (layer_index : nat) :
  outcome (get_portal_item P map_service_name map_service_type)
  = Ok feature_layers →
  get_data feature_layers = Some data_layers →
  get_feature_layer_index feature_layers layer_name = Ok layer_index →
  outcome (get_feature_layer_from_feature_service P map_service_name
             map_service_type layer_name)
  = match data_layers !! layer_index with
    | Some target_layer => Ok target_layer
    | None => Raise (IndexError "list index out of range")
    end.
Proof.
  intros Hitem Hdata Hindex. unfold get_feature_layer_from_feature_service.
  rewrite outcome_bind, Hitem, outcome_bind. cbn [call outcome].
  rewrite outcome_bind. cbn [lift outcome]. rewrite Hindex, Hdata.
  done.
Qed.

Lemma get_feature_layer_from_feature_service_payload_witness :
  outcome (get_feature_layer_from_feature_service
             (sample_portal
                {| id := "0a1b"; title := "Town_Map";
                   layers := [sample_layer "Roads"; sample_layer "Parcels"];
                   get_data := Some [registered_layer] |})
             "Town_Map" "Feature Layer" "Parcels")
  = Raise (IndexError "list index out of range").
Proof.
  eapply (get_feature_layer_from_feature_service_payload _ _ _ _ _
            [registered_layer] 1).
  - vm_compute. reflexivity.
  - reflexivity.
  - vm_compute. reflexivity.
Defined.

(** *** A popup made twice *)

Lemma customize_popup_field_format_changed acc field field' :
  format_changed field field' →
  customize_popup_field acc field' = customize_popup_field acc field.
Proof.
  destruct 1 as [|d f _]; [done|].
  unfold customize_popup_field, getitem. by rewrite !lookup_insert_ne.
Qed.

Lemma customize_popup_fields_format_changed l l' acc :
  Forall2 format_changed l l' →
  for_each customize_popup_field l' acc = for_each customize_popup_field l acc.
Proof.
  intros Hl. revert acc. induction Hl as [|x y l l' Hxy _ IH]; intros acc; [done|].
  cbn [for_each]. rewrite (customize_popup_field_format_changed acc x y Hxy).
  destruct (customize_popup_field acc x); [|done]. cbn. apply IH.
Qed.

Lemma iter_formats_changed fieldInfos fieldInfos' acc :
  formats_changed fieldInfos fieldInfos' →
  (iter fieldInfos' ≫= fun l => for_each customize_popup_field l acc)
  = (iter fieldInfos ≫= fun l => for_each customize_popup_field l acc).
Proof.
  destruct 1 as [|l l' Hl]; [done|]. cbn.
  by apply customize_popup_fields_format_changed.
Qed.

(** The description does not depend on the formats of the entries. *)
Lemma customize_popup_description_formats_changed ol pi pi' fieldInfos
    fieldInfos' map_service_type :
  pi !! "fieldInfos" = Some fieldInfos →
  pi' !! "fieldInfos" = Some fieldInfos' →
  formats_changed fieldInfos fieldInfos' →
  customize_popup_description (VDict (<["popupInfo" := VDict pi']> ol))
    map_service_type
  = customize_popup_description (VDict (<["popupInfo" := VDict pi]> ol))
      map_service_type.
Proof.
  intros Hpi Hpi' Hchanged. unfold customize_popup_description.
  rewrite !(getitem_dict _ "popupInfo" _ (lookup_insert_eq _ _ _)).
  cbn [mbind result_bind].
  rewrite (getitem_dict _ _ _ Hpi), (getitem_dict _ _ _ Hpi').
  cbn [mbind result_bind].
  pose proof (iter_formats_changed _ _ font_prefix Hchanged) as Hiter.
  cbn [mbind result_bind] in Hiter.
  replace (getitem (VDict (<["popupInfo" := VDict pi']> ol)) "title")
    with (getitem (VDict (<["popupInfo" := VDict pi]> ol)) "title")
    by (unfold getitem; by rewrite !lookup_insert_ne).
  destruct (String.eqb map_service_type "Feature Layer"); [|done].
  unfold mbind, result_bind in *. by rewrite Hiter.
Qed.

Lemma customize_popup_description_title ol map_service_type description :
  customize_popup_description (VDict ol) map_service_type = Ok description →
  ∃ t, ol !! "title" = Some t.
Proof.
  unfold customize_popup_description. intros H.
  bind_inv H as acc Hacc. bind_inv H as t Ht.
  apply getitem_Ok in Ht as (? & [= <-] & Ht). eauto.
Qed.

Lemma format_fieldInfos_fixed tl fieldInfos fieldInfos' :
  format_fieldInfos tl fieldInfos = Ok fieldInfos' →
  format_fieldInfos tl fieldInfos' = Ok fieldInfos'.
Proof.
  intros Hformat.
  destruct fieldInfos as [| | |s|l|d]; try discriminate.
  - assert (fieldInfos' = VStr s) as ->; [|done].
    cbn [format_fieldInfos iter mbind result_bind] in Hformat.
    destruct (for_each_update _ _); [|discriminate]. by injection Hformat.
  - cbn [format_fieldInfos] in *.
    pose proof (for_each_update_idemp (format_field tl) l
                  (format_field_idemp tl)) as Hloop.
    destruct (for_each_update (format_field tl) l) as [l'|]; [|discriminate].
    injection Hformat as <-. cbn [mbind result_bind format_fieldInfos] in *.
    by rewrite Hloop.
  - assert (fieldInfos' = VDict d) as ->; [|done].
    cbn [format_fieldInfos iter mbind result_bind] in Hformat.
    destruct (for_each_update _ _); [|discriminate]. by injection Hformat.
Qed.

Lemma popup_synthesis_fixed map_service_type layer_name ol tl ol' :
  popup_synthesis map_service_type layer_name ol tl = Ok ol' →
  popup_synthesis map_service_type layer_name ol' tl = Ok ol'.
Proof.
  intros (d & pi & desc & fieldInfos & fieldInfos' & -> & _ & Hdesc & Hfields
          & Hformat & ->)%popup_synthesis_Ok.
  remember (<["fieldInfos" := fieldInfos']>
              (<["description" := VStr desc]>
                 (<["title" := VStr layer_name]> pi))) as pi' eqn:Hpi'.
  assert (<["title" := VStr layer_name]> pi' = pi') as Htitle.
  { apply insert_id. subst pi'. by simplify_map_eq. }
  assert (<["description" := VStr desc]> pi' = pi') as Hdescription.
  { apply insert_id. subst pi'. by simplify_map_eq. }
  assert (pi' !! "fieldInfos" = Some fieldInfos') as Hfields'.
  { subst pi'. by simplify_map_eq. }
  assert (pi' ≠ ∅) as Hne.
  { subst pi'. apply insert_non_empty. }
  destruct (customize_popup_description_title _ _ _ Hdesc) as [t Ht].
  rewrite lookup_insert_ne in Ht by done.
  unfold popup_synthesis.
  rewrite !(getitem_dict _ "popupInfo" _ (lookup_insert_eq _ _ _)).
  cbn [mbind result_bind truthy]. rewrite bool_decide_eq_false_2 by done.
  cbn [negb mbind result_bind].
  rewrite !(getitem_dict _ "popupInfo" _ (lookup_insert_eq _ _ _)).
  cbn [mbind result_bind setitem]. rewrite Htitle, insert_insert_eq.
  rewrite (customize_popup_description_formats_changed d
             (<["title" := VStr layer_name]> pi) pi' fieldInfos fieldInfos').
  2:{ by rewrite lookup_insert_ne. }
  2:{ done. }
  2:{ by eapply format_fieldInfos_changed. }
  rewrite Hdesc. cbn [mbind result_bind]. rewrite Hdescription.
  rewrite (getitem_dict _ _ _ Hfields'). cbn [mbind result_bind].
  rewrite (format_fieldInfos_fixed _ _ _ Hformat). cbn [mbind result_bind].
  rewrite (insert_id pi' "fieldInfos" fieldInfos') by done.
  rewrite insert_insert_eq.
  rewrite (getitem_dict _ "title" t) by by rewrite lookup_insert_ne.
  done.
Qed.

Lemma title_contains_popupInfo d x layer_name :
  title_contains (VDict (<["popupInfo" := x]> d)) layer_name
  = title_contains (VDict d) layer_name.
Proof. unfold title_contains, getitem. by rewrite lookup_insert_ne. Qed.

Lemma get_webmap_operational_layers_loop_congr layer_name l l' k acc acc' r :
  Forall2 (fun a b => title_contains a layer_name = title_contains b layer_name)
    l l' →
  fst <$> acc = fst <$> acc' →
  for_each
    (fun (operational_layer : option (nat * value)) '(i, layer) =>
       b ← title_contains layer layer_name;
       if b : bool then Ok (Some (i, layer)) else Ok operational_layer)
    (zip (seq k (length l)) l) acc = Ok r →
  ∃ r',
    for_each
      (fun (operational_layer : option (nat * value)) '(i, layer) =>
         b ← title_contains layer layer_name;
         if b : bool then Ok (Some (i, layer)) else Ok operational_layer)
      (zip (seq k (length l')) l') acc' = Ok r'
    ∧ fst <$> r = fst <$> r'.
Proof.
  intros Hl. revert k acc acc'.
  induction Hl as [|x y l l' Hxy _ IH]; intros k acc acc' Hacc; cbn.
  - intros [= <-]. eauto.
  - rewrite <- Hxy. destruct (title_contains x layer_name) as [b|];
      [|discriminate].
    cbn. destruct b; cbn; by apply IH.
Qed.

Lemma Forall2_insert_same {A} (R : A → A → Prop) l i x y :
  (∀ a, R a a) → l !! i = Some x → R x y → Forall2 R l (<[i := y]> l).
Proof.
  intros Hrefl. revert i. induction l as [|a l IH]; intros [|i]; try done; cbn.
  - intros [= ->] Hxy. constructor; [done|].
    clear IH. induction l; constructor; auto.
  - intros Hi Hxy. constructor; auto.
Qed.

(** The layer that is found is found again after it was replaced by a layer
    of the same title. *)
Lemma get_webmap_operational_layers_insert web_map layer_name i ol ol' :
  get_webmap_operational_layers web_map layer_name = Ok (i, ol) →
  title_contains ol' layer_name = title_contains ol layer_name →
  get_webmap_operational_layers (<[i := ol']> web_map) layer_name = Ok (i, ol').
Proof.
  intros Hfound Htitle.
  pose proof (get_webmap_operational_layers_lookup _ _ _ _ Hfound) as Hi.
  assert (∃ x, get_webmap_operational_layers (<[i := ol']> web_map) layer_name
               = Ok (i, x)) as [x Hx].
  { unfold get_webmap_operational_layers in *.
    destruct (for_each _ (zip (seq 0 (length web_map)) web_map) None)
      as [r|] eqn:Hloop; [|discriminate].
    cbn [mbind result_bind] in Hfound.
    destruct r as [[j z]|]; [|discriminate]. injection Hfound as -> ->.
    destruct (get_webmap_operational_layers_loop_congr layer_name web_map
                (<[i := ol']> web_map) 0 None None (Some (i, ol)))
      as ([[j x]|] & -> & Hfst); try done.
    - eapply Forall2_insert_same; [done|exact Hi|done].
    - injection Hfst as <-. by exists x. }
  rewrite Hx. do 2 f_equal.
  apply get_webmap_operational_layers_lookup in Hx.
  rewrite list_lookup_insert_eq in Hx by by eapply lookup_lt_Some.
  by injection Hx.
Qed.

Lemma feature_layer_popup_found P msn mst web_map layer_name i ol :
  get_webmap_operational_layers web_map layer_name = Ok (i, ol) →
  feature_layer_popup P msn mst web_map layer_name
  = IO (calls (get_feature_layer_from_feature_service P msn mst layer_name))
      match outcome (get_feature_layer_from_feature_service P msn mst layer_name) with
      | Ok tl =>
          (fun ol' => <[i := ol']> web_map) <$> popup_synthesis mst layer_name ol tl
      | Raise e => Raise e
      end.
Proof.
  intros Hfound. unfold feature_layer_popup. rewrite Hfound.
  destruct (get_feature_layer_from_feature_service P msn mst layer_name)
    as [log [tl|e]]; cbn; [|done].
  destruct (popup_synthesis mst layer_name ol tl); cbn; by rewrite app_nil_r.
Qed.

(** X13.  Making the popup of a layer a second time changes nothing: on the
    web map that a completed run of [feature_layer_popup] has left, the
    same run makes the same calls and returns that web map. *)
Theorem feature_layer_popup_idempotent (P : GIS)
    (map_service_name map_service_type : string) (web_map : list value)
    (layer_name : string) (web_map' : list value) :
  outcome (feature_layer_popup P map_service_name map_service_type
             web_map layer_name) = Ok web_map' →
  feature_layer_popup P map_service_name map_service_type web_map' layer_name
  = IO (calls (feature_layer_popup P map_service_name map_service_type
                 web_map layer_name))
      (Ok web_map').
Proof.
  intros Hrun.
  destruct (feature_layer_popup_Ok _ _ _ _ _ _ Hrun)
    as (i & ol & tl & ol' & Hfound & Hfetch & Hsynthesis & ->).
  assert (title_contains ol' layer_name = title_contains ol layer_name) as Htitle.
  { destruct (popup_synthesis_Ok _ _ _ _ _ Hsynthesis)
      as (d & pi & desc & f & f' & -> & _ & _ & _ & _ & ->).
    apply title_contains_popupInfo. }
  rewrite (feature_layer_popup_found _ _ _ _ _ _ _ Hfound).
  rewrite (feature_layer_popup_found P _ _ _ _ i ol'
             (get_webmap_operational_layers_insert _ _ _ _ _ Hfound Htitle)).
  rewrite Hfetch. cbn [calls].
  rewrite (popup_synthesis_fixed _ _ _ _ _ Hsynthesis). cbn.
  by rewrite list_insert_insert_eq.
Qed.

Lemma feature_layer_popup_idempotent_witness :
  feature_layer_popup (sample_portal hosted_item) "Town_Map" "Feature Layer"
    (completed (feature_layer_popup (sample_portal hosted_item) "Town_Map"
                  "Feature Layer" hosted_web_map "Parcels"))
    "Parcels"
  = IO (calls (feature_layer_popup (sample_portal hosted_item) "Town_Map"
                 "Feature Layer" hosted_web_map "Parcels"))
      (Ok (completed (feature_layer_popup (sample_portal hosted_item) "Town_Map"
                        "Feature Layer" hosted_web_map "Parcels"))).
Proof.
  apply feature_layer_popup_idempotent. vm_compute. reflexivity.
Defined.

(** *** The titles of the web map *)

Lemma feature_layer_popup_titles P msn mst web_map layer_name web_map' :
  outcome (feature_layer_popup P msn mst web_map layer_name) = Ok web_map' →
  titles web_map' = titles web_map.
Proof.
  intros (i & ol & tl & ol' & Hfound & _ & Hsynthesis & ->)%feature_layer_popup_Ok.
  apply get_webmap_operational_layers_lookup in Hfound.
  destruct (popup_synthesis_Ok _ _ _ _ _ Hsynthesis)
    as (d & pi & desc & f & f' & -> & _ & _ & _ & _ & ->).
  unfold titles. rewrite list_fmap_insert. apply list_insert_id.
  rewrite list_lookup_fmap, Hfound. cbn [fmap option_fmap option_map].
  unfold getitem. by rewrite lookup_insert_ne.
Qed.

Lemma for_each_io_invariant {A B} (body : B → A → io B) (Inv : B → Prop) l acc r :
  (∀ acc x acc', Inv acc → outcome (body acc x) = Ok acc' → Inv acc') →
  Inv acc →
  outcome (for_each_io body l acc) = Ok r → Inv r.
Proof.
  intros Hbody. revert acc. induction l as [|x l IH]; intros acc Hacc; cbn.
  - by intros [= <-].
  - rewrite outcome_bind.
    destruct (outcome (body acc x)) as [acc'|] eqn:Hx; [|discriminate].
    apply IH. by eapply Hbody.
Qed.

(** X14.  A completed [create_popups] leaves the web map with the same
    number of operational layers, each with the title it had: the popups
    never rename, add or remove a layer. *)
Theorem create_popups_titles (P : GIS) (web_map : list value)
    (project_name : string) (layer_names : list string) (web_map' : list value) :
  outcome (create_popups P web_map project_name layer_names) = Ok web_map' →
  titles web_map' = titles web_map ∧ length web_map' = length web_map.
Proof.
  intros Hrun.
  assert (titles web_map' = titles web_map) as Htitles.
  { unfold create_popups in Hrun.
    destruct layer_names as [|layer_name layer_names].
    { cbn in Hrun. by simplify_eq. }
    eapply (for_each_io_invariant _ (fun w => titles w = titles web_map));
      [|reflexivity|exact Hrun].
    intros acc x acc' Hacc Hx. rewrite <- Hacc.
    by eapply feature_layer_popup_titles. }
  split; [done|].
  apply (f_equal length) in Htitles. unfold titles in Htitles.
  by rewrite !length_fmap in Htitles.
Qed.

Lemma create_popups_titles_witness :
  titles (completed (create_popups (sample_portal hosted_item) hosted_web_map
                       "Town" ["Parcels"; "Parcels"]))
  = titles hosted_web_map
  ∧ length (completed (create_popups (sample_portal hosted_item) hosted_web_map
                         "Town" ["Parcels"; "Parcels"]))
    = length hosted_web_map.
Proof.
  apply (create_popups_titles (sample_portal hosted_item) hosted_web_map
           "Town" ["Parcels"; "Parcels"]).
  vm_compute. reflexivity.
Defined.

(** *** get_properties_from_project *)

Lemma filter_not_title (m : gmap string value) :
  filter (fun kv => kv.1 ∉ ({["title"]} : gset string)) m = delete "title" m.
Proof.
  apply map_eq. intros k. apply option_eq. intros v.
  rewrite map_lookup_filter_Some, lookup_delete_Some. cbn.
  rewrite not_elem_of_singleton. split; intros [??]; split; congruence.
Qed.

(** X15.  The properties of an item hold a title for a web map only, so
    that updating a collection never renames it; whatever the content type
    they hold the five other keys, and the tags are the project name
    followed by the additional information. *)
Theorem get_properties_from_project_keys
    (project_name content_type : string) (project_additional_info : list value) :
  get_properties_from_project project_name content_type project_additional_info
    !! "title"
  = (if String.eqb content_type "WebMap"
     then Some (VStr (project_name +:+ "_" +:+ content_type)) else None)
  ∧ get_properties_from_project project_name content_type project_additional_info
      !! "tags"
    = Some (VList (VStr project_name :: project_additional_info))
  ∧ dom (get_properties_from_project project_name content_type
           project_additional_info)
    = (if String.eqb content_type "WebMap" then {["title"]} else ∅)
      ∪ ({["snippet"]} ∪ {["description"]} ∪ {["tags"]}
         ∪ {["accessInformation"]} ∪ {["licenseInfo"]} : gset string).
Proof.
  unfold get_properties_from_project.
  destruct (String.eqb content_type "WebMap"); cbn [negb].
  - split; [by simplify_map_eq|]. split; [by simplify_map_eq|].
    rewrite !dom_insert_L, dom_empty_L. set_solver.
  - rewrite filter_not_title, delete_insert_eq, delete_id by by simplify_map_eq.
    split; [by simplify_map_eq|]. split; [by simplify_map_eq|].
    rewrite !dom_insert_L, dom_empty_L. set_solver.
Qed.

(** *** create_new_webmap: what reaches the portal *)

Lemma check_layer_names_ok (names : list string) :
  for_each_update check_layer_name (VStr <$> names) = Ok names.
Proof. induction names as [|s names IH]; [done|]. cbn. by rewrite IH. Qed.

(** The run of [create_new_webmap] once its arguments are checked. *)
Lemma create_new_webmap_checked P add project_name layer_names names args :
  for_each_update check_layer_name layer_names = Ok names →
  create_new_webmap P add (VStr project_name) (VList layer_names) args =
  let found := get_portal_item P (project_name +:+ "_Map") "Feature Layer" in
  match outcome found with
  | Raise e => IO (calls found) (Raise e)
  | Ok feature_layers =>
      let popups :=
        create_popups P (foldl add [] (layers feature_layers))
          project_name names in
      IO (calls found
          ++ [Update (id feature_layers)
                (get_properties_from_project project_name "Feature Layer" args);
              Protect (id feature_layers) true;
              Share (id feature_layers) "org"]
          ++ calls popups
          ++ match outcome popups with
             | Ok new_web_map =>
                 [Save (get_properties_from_project project_name "WebMap" args)
                    new_web_map]
             | Raise _ => []
             end)
        match outcome popups with
        | Ok _ => Ok ()
        | Raise e => Raise e
        end
  end.
Proof.
  intros Hcheck. unfold create_new_webmap, get_feature_layers_collection.
  rewrite Hcheck. cbn zeta.
  destruct (get_portal_item P (project_name +:+ "_Map") "Feature Layer")
    as [log [feature_layers|e]]; [|done].
  cbn [lift mbind io_bind calls outcome app call protect_share_item].
  destruct (create_popups P (foldl add [] (layers feature_layers))
              project_name names) as [log' [new_web_map|e]];
    cbn [calls outcome app]; by rewrite ?app_nil_r.
Qed.

(** X16.  With checked arguments, when the search for the collection
    [<project>_Map] finds nothing, [create_new_webmap] raises its
    [KeyError] after that one search: nothing is fetched, updated,
    protected, shared or saved. *)
Theorem create_new_webmap_collection_missing (P : GIS)
    (WebMap_add_layer : list value → layer → list value)
    (project_name : string) (layer_names : list string) (args : list value) :
  content_search P (item_query P (project_name +:+ "_Map")) "Feature Layer" = [] →
  create_new_webmap P WebMap_add_layer (VStr project_name)
    (VList (VStr <$> layer_names)) args
  = IO [Search (item_query P (project_name +:+ "_Map")) "Feature Layer"]
      (Raise (KeyError ("unable to find " +:+ project_name +:+ "_Map"))).
Proof.
  intros Hsearch.
  rewrite (create_new_webmap_checked _ _ _ _ _ _ (check_layer_names_ok _)).
  cbn zeta. rewrite get_portal_item_cases, Hsearch. done.
Qed.

Lemma create_new_webmap_collection_missing_witness :
  create_new_webmap
    {| users_me_username := "admin";
       content_search := fun _ _ => [];
       content_get := fun _ => None |}
    (fun web_map _ => web_map) (VStr "Town") (VList (VStr <$> ["Parcels"])) []
  = IO [Search "title:Town_Map AND owner:admin" "Feature Layer"]
      (Raise (KeyError "unable to find Town_Map")).
Proof.
  apply (create_new_webmap_collection_missing
           {| users_me_username := "admin";
              content_search := fun _ _ => [];
              content_get := fun _ => None |}).
  reflexivity.
Defined.

(** X17.  With checked arguments and the collection found, the collection
    is updated, protected and shared before any popup is made and whatever
    becomes of the popups; the web map is saved last, with the web-map
    properties, and only when the popups are completed.  A failure of the
    popups is raised with the collection already updated, protected and
    shared, and no web map saved. *)
Theorem create_new_webmap_trace (P : GIS)
    (WebMap_add_layer : list value → layer → list value)
    (project_name : string) (layer_names : list string) (args : list value)
    (first : item) (others : list item) (feature_layers : item) :
  content_search P (item_query P (project_name +:+ "_Map")) "Feature Layer"
  = first :: others →
  content_get P (id first) = Some feature_layers →
  create_new_webmap P WebMap_add_layer (VStr project_name)
    (VList (VStr <$> layer_names)) args
  = IO ([Search (item_query P (project_name +:+ "_Map")) "Feature Layer";
         Get (id first);
         Update (id feature_layers)
           (get_properties_from_project project_name "Feature Layer" args);
         Protect (id feature_layers) true;
         Share (id feature_layers) "org"]
        ++ calls (create_popups P
                    (foldl WebMap_add_layer [] (layers feature_layers))
                    project_name layer_names)
        ++ match outcome (create_popups P
                            (foldl WebMap_add_layer [] (layers feature_layers))
                            project_name layer_names) with
           | Ok new_web_map =>
               [Save (get_properties_from_project project_name "WebMap" args)
                  new_web_map]
           | Raise _ => []
           end)
      match outcome (create_popups P
                       (foldl WebMap_add_layer [] (layers feature_layers))
                       project_name layer_names) with
      | Ok _ => Ok ()
      | Raise e => Raise e
      end.
Proof.
  intros Hsearch Hget.
  rewrite (create_new_webmap_checked _ _ _ _ _ _ (check_layer_names_ok _)).
  cbn zeta. rewrite get_portal_item_cases, Hsearch, Hget. done.
Qed.

Lemma create_new_webmap_trace_witness :
  create_new_webmap (sample_portal hosted_item)
    (fun web_map _ => web_map ++ hosted_web_map)
    (VStr "Town") (VList (VStr <$> ["Roads"])) []
  = IO [Search "title:Town_Map AND owner:admin" "Feature Layer";
        Get "0a1b";
        Update "0a1b" (get_properties_from_project "Town" "Feature Layer" []);
        Protect "0a1b" true;
        Share "0a1b" "org"]
      (Raise (UnboundLocalError "operational_layer")).
Proof.
  rewrite (create_new_webmap_trace (sample_portal hosted_item)
             (fun web_map _ => web_map ++ hosted_web_map) "Town" ["Roads"] []
             hosted_item [] hosted_item eq_refl eq_refl).
  vm_compute. reflexivity.
Defined.

(** X18.  Whatever its arguments and whatever the portal answers,
    [create_new_webmap] saves a web map only when it completes, and then as
    its last call: a run that raises has saved nothing. *)
Theorem create_new_webmap_saves_last (P : GIS)
    (WebMap_add_layer : list value → layer → list value)
    (project_name layer_names : value) (args : list value) :
  match outcome (create_new_webmap P WebMap_add_layer project_name
                   layer_names args) with
  | Ok _ =>
      ∃ before item_properties new_web_map,
        calls (create_new_webmap P WebMap_add_layer project_name
                 layer_names args)
        = before ++ [Save item_properties new_web_map]
        ∧ Forall (fun c => is_save c = false) before
  | Raise _ =>
      Forall (fun c => is_save c = false)
        (calls (create_new_webmap P WebMap_add_layer project_name
                  layer_names args))
  end.
Proof.
  assert (∀ l, Forall (fun c => read_only c = true) l →
               Forall (fun c => is_save c = false) l) as Hread.
  { intros l Hl. eapply Forall_impl; [exact Hl|]. by intros []. }
  destruct project_name as [| | |project_name| |]; try by constructor.
  destruct layer_names as [| | | |layer_names|]; try by constructor.
  destruct (for_each_update check_layer_name layer_names) as [names|e] eqn:Hcheck.
  2:{ unfold create_new_webmap. rewrite Hcheck. by constructor. }
  rewrite (create_new_webmap_checked _ _ _ _ _ _ Hcheck). cbn zeta.
  destruct (get_portal_item_read_only P (project_name +:+ "_Map") "Feature Layer")
    as [Hfound _].
  apply Hread in Hfound.
  set (found := get_portal_item P (project_name +:+ "_Map") "Feature Layer") in *.
  destruct (outcome found) as [feature_layers|e]; [|done].
  destruct (create_popups_read_only P
              (foldl WebMap_add_layer [] (layers feature_layers))
              project_name names) as [Hpopups%Hread _].
  set (popups := create_popups P
                   (foldl WebMap_add_layer [] (layers feature_layers))
                   project_name names) in *.
  assert (Forall (fun c => is_save c = false)
            (calls found
             ++ [Update (id feature_layers)
                   (get_properties_from_project project_name "Feature Layer" args);
                 Protect (id feature_layers) true;
                 Share (id feature_layers) "org"]
             ++ calls popups)) as Hbefore.
  { apply Forall_app. split; [done|]. apply Forall_app. split; [|done].
    by repeat constructor. }
  destruct (outcome popups) as [new_web_map|e]; unfold calls at 1, outcome at 1.
  - eexists _, _, _. split; [|exact Hbefore]. by rewrite <- !app_assoc.
  - by rewrite app_nil_r.
Qed.

(** *** The target layer of a service without payload, and a target layer
    without popup *)

Lemma get_feature_layer_index_Ok fc layer_name i :
  get_feature_layer_index fc layer_name = Ok i →
  ∃ l, layers fc !! i = Some l ∧ contains (properties_name l) layer_name = true.
Proof.
  rewrite get_feature_layer_index_scan.
  destruct (pred_cases (fun l => contains (properties_name l) layer_name)
              (layers fc)) as [Hno|Hsome].
  - by rewrite scan_last_None.
  - destruct (scan_last_Some _ (fun i (_ : layer) => i) (layers fc) None Hsome)
      as (j & l & -> & Hj & Hl & _).
    intros [= <-]. by exists l.
Qed.

Lemma get_feature_layer_index_Raise fc layer_name e :
  get_feature_layer_index fc layer_name = Raise e →
  e = UnboundLocalError "layer_index".
Proof.
  rewrite get_feature_layer_index_scan.
  destruct (scan_last _ _ _ _ _); [discriminate|]. by intros [= <-].
Qed.

(** X19.  When the item that is found has no data payload, the target layer
    is a layer of the collection whose name contains the layer name, and the
    only failure is that of the index: no [IndexError] can arise.  The
    payload has been asked for in either case. *)
Theorem get_feature_layer_from_feature_service_hosted (P : GIS)
    (map_service_name map_service_type layer_name : string)
    (feature_layers : item) :
  outcome (get_portal_item P map_service_name map_service_type)
  = Ok feature_layers →
  get_data feature_layers = None →
  calls (get_feature_layer_from_feature_service P map_service_name
           map_service_type layer_name)
  = calls (get_portal_item P map_service_name map_service_type)
    ++ [GetData (id feature_layers)]
  ∧ match outcome (get_feature_layer_from_feature_service P map_service_name
                     map_service_type layer_name) with
    | Ok target_layer =>
        target_layer ∈ layers feature_layers
        ∧ contains (properties_name target_layer) layer_name = true
    | Raise e => e = UnboundLocalError "layer_index"
    end.
Proof.
  intros Hitem Hdata. unfold get_feature_layer_from_feature_service.
  rewrite calls_bind, outcome_bind, Hitem.
  rewrite calls_bind, outcome_bind. cbn [call calls outcome].
  rewrite calls_bind, outcome_bind. cbn [lift calls outcome]. rewrite Hdata.
  destruct (get_feature_layer_index feature_layers layer_name) as [i|e] eqn:Hindex.
  - apply get_feature_layer_index_Ok in Hindex as (l & Hl & Hname).
    cbn [lift calls outcome]. rewrite (index_lookup _ _ _ Hl).
    split; [done|]. split; [|done]. by eapply list_elem_of_lookup_2.
  - split; [done|]. by eapply get_feature_layer_index_Raise.
Qed.

Lemma get_feature_layer_from_feature_service_hosted_witness :
  calls (get_feature_layer_from_feature_service (sample_portal hosted_item)
           "Town_Map" "Feature Layer" "Roads")
  = calls (get_portal_item (sample_portal hosted_item) "Town_Map" "Feature Layer")
    ++ [GetData (id hosted_item)]
  ∧ match outcome (get_feature_layer_from_feature_service
                     (sample_portal hosted_item) "Town_Map" "Feature Layer"
                     "Roads") with
    | Ok target_layer =>
        target_layer ∈ layers hosted_item
        ∧ contains (properties_name target_layer) "Roads" = true
    | Raise e => e = UnboundLocalError "layer_index"
    end.
Proof.
  apply (get_feature_layer_from_feature_service_hosted (sample_portal hosted_item)
           "Town_Map" "Feature Layer" "Roads" hosted_item); reflexivity.
Defined.

(** X20.  When the operational layer has an empty popup and the target
    layer cannot give one, [feature_layer_popup] raises what the target
    layer raised: there is no default popup. *)
Theorem feature_layer_popup_no_schema_popupInfo (P : GIS)
    (map_service_name map_service_type : string) (web_map : list value)
    (layer_name : string) (i : nat) (ol : gmap string value)
    (popupInfo : value) (target_layer : layer) (e : exn) :
  get_webmap_operational_layers web_map layer_name = Ok (i, VDict ol) →
  ol !! "popupInfo" = Some popupInfo →
  truthy popupInfo = false →
  outcome (get_feature_layer_from_feature_service P map_service_name
             map_service_type layer_name) = Ok target_layer →
  getitem_popupInfo target_layer = Raise e →
  outcome (feature_layer_popup P map_service_name map_service_type
             web_map layer_name)
  = Raise e.
Proof.
  intros Hfound Hpopup Hempty Hfetch Hschema.
  rewrite (feature_layer_popup_outcome _ _ _ _ _ _ _ _ Hfound Hfetch).
  unfold popup_synthesis. rewrite (getitem_dict _ _ _ Hpopup).
  cbn [mbind result_bind]. by rewrite Hempty, Hschema.
Qed.

Lemma feature_layer_popup_no_schema_popupInfo_witness :
  outcome (feature_layer_popup (sample_portal hosted_item) "Town_Map"
             "Feature Layer" registered_web_map "Parcels")
  = Raise (TypeError "object is not subscriptable").
Proof.
  eapply (feature_layer_popup_no_schema_popupInfo (sample_portal hosted_item)
            "Town_Map" "Feature Layer" registered_web_map "Parcels" 0
            registered_operational_layer (VDict ∅)).
  - vm_compute. reflexivity.
  - vm_compute. reflexivity.
  - vm_compute. reflexivity.
  - vm_compute. reflexivity.
  - reflexivity.
Defined.
